(** * A pipelined, multi-core DIF FFT datapath: clocked model and properties

    A shallow embedding of the SystemC modules [Stage] (stage.h), [FFT]
    (fft.h), [Memory] (memory.h), [DMA] (dma.h) and [InterleavedFFT]
    (interleaved_fft.h).

    Conventions.
    - Every [SC_METHOD] sensitive to [clk.pos()] is a function from the
      values the signals hold before the edge (and the inputs sampled at
      the edge) to the values they hold after it.  A signal written twice
      in one activation keeps the last value written; a read always sees
      the value from before the edge.
    - Every [SC_METHOD] sensitive to data signals only is a function of the
      current values of the signals it is sensitive to.  A signal it reads
      without being sensitive to it is an argument of the model: the value
      the read returned when the method last ran.
    - An [sc_signal<T>] takes a value written to it only if that value
      differs, by [operator==] of [T], from the one it holds.  For [bool],
      [int] and [sc_uint] this cannot be observed.  For [complex_t] it can:
      [+0.0 == -0.0], so a signal holding a zero of one sign keeps it when
      the zero of the other sign is written ([signal_write]).  The values
      the theorems give for an output port are the values the method
      writes to the port.
    - C++ [int] is modelled by [Z].  Signed overflow is undefined in C++:
      the theorems bound their parameters by [INT_MAX] where a counter
      could otherwise leave the range of [int].  [/] and [%] on [int] are
      [Z.quot] and [Z.rem]; [>>] is [Z.shiftr].
    - [sc_uint<W>] is a [Z] in [[0, 2^W)]; a write to such a signal
      truncates to [W] bits.
    - [double] is the kernel's binary64 [float].  [cos] and [sin] of
      <cmath> are taken as operations of a class [Libm].
    - [std::vector::operator[]] out of range is undefined: the model
      answers [None]. *)

From Stdlib Require Import ZArith Lia Bool List.
From Stdlib Require Import Floats.PrimFloat Numbers.Cyclic.Int63.Uint63.
From Stdlib Require Floats.FloatOps Floats.SpecFloat Floats.FloatAxioms.
From stdpp Require Import base option list.

Local Open Scope Z_scope.

(** ** Numeric conversions *)

(** [(double)u] for an unsigned value below 2^63 (exact below 2^53). *)
Definition double_of_uint (z : Z) : float :=
  PrimFloat.of_uint63 (Uint63.of_Z z).

(** [(double)i] for an [int]. *)
Definition double_of_int (z : Z) : float :=
  if z <? 0 then PrimFloat.opp (double_of_uint (- z)) else double_of_uint z.

(** The largest [int]. *)
Definition INT_MAX : Z := 2 ^ 31 - 1.

(** The value stored in an [sc_uint<w>] when [z] is written to it. *)
Definition wrap (w : Z) (z : Z) : Z := z mod 2 ^ w.

(** The functions of <cmath> the design calls. *)
Class Libm := { cos : float -> float; sin : float -> float }.

(** ** fft_types.h: [complex_t] *)

Record complex_t := Complex { real : float; imag : float }.

(** [complex_t(0,0)] *)
Definition czero : complex_t := Complex 0%float 0%float.

Definition cadd (a b : complex_t) : complex_t :=
  Complex (real a + real b)%float (imag a + imag b)%float.

Definition csub (a b : complex_t) : complex_t :=
  Complex (real a - real b)%float (imag a - imag b)%float.

Definition cmul (a b : complex_t) : complex_t :=
  Complex (real a * real b - imag a * imag b)%float
          (real a * imag b + imag a * real b)%float.

(** [operator==]: both components equal as [double]s.  Zeros of
    opposite sign are equal, a NaN equals nothing. *)
Definition ceqb (a b : complex_t) : bool :=
  (real a =? real b)%float && (imag a =? imag b)%float.

(** ** [sc_signal<complex_t>] *)

(** The value of a signal that holds [cur], once [v], the value written
    to it during the evaluation phase, has gone through the update phase:
    [sc_signal<T>::update] assigns only if [!(m_new_val == m_cur_val)]. *)
Definition signal_write (cur v : complex_t) : complex_t :=
  if ceqb cur v then cur else v.

(** ** [std::vector] accesses *)

(** [v[i]] read. *)
Definition vec_get {A} (v : list A) (i : Z) : option A :=
  if 0 <=? i then v !! Z.to_nat i else None.

(** [v[i] = x]. *)
Definition vec_set {A} (v : list A) (i : Z) (x : A) : option (list A) :=
  if (0 <=? i) && (i <? Z.of_nat (length v))
  then Some (<[Z.to_nat i := x]> v) else None.

(** [std::fill(v.begin(), v.end(), x)] *)
Definition vec_fill {A} (v : list A) (x : A) : list A :=
  replicate (length v) x.

(** ** stage.h: one radix-2 DIF butterfly level *)

Module Stage.

(** The configuration members set by the constructor. *)
Record config := Config {
  N_stage : Z;
  delay_len : Z;
  init_offset : Z
}.

(** The counter, the value on [out_data] and the two buffers.  [process]
    does not read [out_data]: in the state it returns, the field is the
    value it writes to the port (the old field when it writes nothing). *)
Record state := State {
  cnt : Z;
  out_data : complex_t;
  buf_in : list complex_t;
  buf_out : list complex_t
}.

(** [Stage(name, n, id, offset)].  [resize] receives [delay_len] as a
    [size_t]: a negative value is far above [max_size()] and makes it
    throw [std::length_error], the one way this constructor can fail. *)
Definition ctor (n id offset : Z) : option (config * state) :=
  let dl := Z.quot n 2 in
  if dl <? 0 then None
  else Some (Config n dl offset,
             State 0 czero (replicate (Z.to_nat dl) czero)
                           (replicate (Z.to_nat dl) czero)).

(** The stages the FFT builds for a power-of-two transform: an even size,
    a counter and an offset inside the period, buffers of [delay_len]
    samples. *)
Record wf (cfg : config) (s : state) : Prop := Wf {
  wf_size : N_stage cfg = 2 * delay_len cfg;
  wf_delay : 1 <= delay_len cfg;
  wf_offset : 0 <= init_offset cfg < N_stage cfg;
  wf_cnt : 0 <= cnt s < N_stage cfg;
  wf_buf_in : Z.of_nat (length (buf_in s)) = delay_len cfg;
  wf_buf_out : Z.of_nat (length (buf_out s)) = delay_len cfg
}.

(** The counter and the buffers an enabled edge works on, once the [sync]
    branch of [process] has run. *)
Definition synced_cnt (cfg : config) (sync : bool) (s : state) : Z :=
  if sync then init_offset cfg else cnt s.

Definition synced_buf_in (sync : bool) (s : state) : list complex_t :=
  if sync then vec_fill (buf_in s) czero else buf_in s.

Definition synced_buf_out (sync : bool) (s : state) : list complex_t :=
  if sync then vec_fill (buf_out s) czero else buf_out s.

Section process.
Context `{Libm}.

(** [get_twiddle(k, n)]: [angle = -2.0 * PI * k / n], evaluated left
    to right in [double]. *)
Definition PI : float := 0x1.921fb54442d18p+1%float.

Definition twiddle_angle (k n : Z) : float :=
  ((-2 * PI) * double_of_int k / double_of_int n)%float.

Definition get_twiddle (k n : Z) : complex_t :=
  let angle := twiddle_angle k n in
  Complex (cos angle) (sin angle).

(** [process()], one rising clock edge. *)
Definition process (cfg : config) (rst enable sync : bool)
    (input : complex_t) (s : state) : option state :=
  if rst then
    Some (State (init_offset cfg) czero
                (vec_fill (buf_in s) czero) (vec_fill (buf_out s) czero))
  else if enable then
    let c := if sync then init_offset cfg else cnt s in
    let bi := if sync then vec_fill (buf_in s) czero else buf_in s in
    let bo := if sync then vec_fill (buf_out s) czero else buf_out s in
    if N_stage cfg =? 0 then None
    else if c <? delay_len cfg then
      bi' ← vec_set bi c input;
      output_val ← vec_get bo c;
      Some (State (Z.rem (c + 1) (N_stage cfg)) output_val bi' bo)
    else
      let k := c - delay_len cfg in
      val_a ← vec_get bi k;
      let val_b := input in
      let w := get_twiddle k (N_stage cfg) in
      let sum := cadd val_a val_b in
      let diff := cmul (csub val_a val_b) w in
      bo' ← vec_set bo k diff;
      Some (State (Z.rem (c + 1) (N_stage cfg)) sum bi bo')
  else Some s.

End process.
End Stage.

(** ** fft.h: the pipeline composer *)

Module FFT.

Record config := Config {
  N : Z;
  num_stages : Z;
  latency_cycles : Z;
  stages : list Stage.config
}.

(** The registers of [seq_logic]. *)
Record state := State {
  internal_cnt : Z;
  samples_in_cnt : Z;
  out_cnt_reg : Z;
  flushing : bool;
  valid_pipe : list bool
}.

(** The values [comb_logic] writes to its ports. *)
Record outputs := Outputs {
  status : bool;
  in_index : Z;
  out_index : Z;
  out_valid : bool;
  out_data : complex_t
}.

(** [(int)log2(N)].  For [N >= 1] below 2^31 the [double] logarithm
    truncates to the integer logarithm.  For [N <= 0] the conversion is
    undefined in C++; nothing below relies on the value the model gives
    there. *)
Definition int_log2 (n : Z) : Z := Z.log2 n.

(** The constructor's loop [for (i = 0; i < num_stages; i++)], started at
    index [i] with [remaining] iterations to go: the stages it pushes and
    the final [total_latency]. *)
Fixpoint build_stages (remaining : nat) (n i total_latency : Z)
    : option (list Stage.config * Z) :=
  match remaining with
  | O => Some ([], total_latency)
  | S remaining' =>
      let current_N := Z.shiftr n i in
      let offset :=
        Z.rem (current_N - Z.rem total_latency current_N) current_N in
      st ← Stage.ctor current_N i offset;
      let stage_latency := Z.quot current_N 2 in
      rest ← build_stages remaining' n (i + 1)
               (total_latency + (stage_latency + 1));
      Some (st.1 :: rest.1, rest.2)
  end.

(** [FFT(name, n_points)]: the configuration it computes. *)
Definition ctor (n_points : Z) : option config :=
  let num_stages := int_log2 n_points in
  built ← build_stages (Z.to_nat num_stages) n_points 0 0;
  Some (Config n_points num_stages built.2 built.1).

(** The registers when simulation starts: [valid_pipe.init(latency_cycles)]
    and the default value of every signal. *)
Definition initial (cfg : config) : state :=
  State 0 0 0 false (replicate (Z.to_nat (latency_cycles cfg)) false).

(** The scan of [control_logic] for a set entry, with its [break]. *)
Fixpoint any_valid_in_pipe (pipe : list bool) : bool :=
  match pipe with
  | [] => false
  | v :: rest => if v then true else any_valid_in_pipe rest
  end.

(** [control_logic()]: the two signals it drives. *)
Definition internal_enable (s : state) (in_valid : bool) : bool :=
  in_valid || any_valid_in_pipe (valid_pipe s).

Definition stage_sync (s : state) (in_valid : bool) : bool :=
  (samples_in_cnt s =? 0) && in_valid
  && negb (any_valid_in_pipe (valid_pipe s)).

(** The shift loop of [seq_logic]: entry [i > 0] takes the old entry
    [i - 1], entry 0 takes [valid_in]. *)
Definition shift_valid_pipe (valid_in : bool) (pipe : list bool) : list bool :=
  imap (fun i _ =>
          match i with
          | O => valid_in
          | S j => default false (pipe !! j)
          end) pipe.

(** [seq_logic()], one rising clock edge. *)
Definition seq_logic (cfg : config) (rst in_valid : bool) (s : state) : state :=
  let size := Z.of_nat (length (valid_pipe s)) in
  if rst then
    State 0 0 (N cfg - 1) (flushing s) (vec_fill (valid_pipe s) false)
  else
    let enabled := internal_enable s in_valid in
    let valid_in := in_valid in
    let s_in := samples_in_cnt s in
    if enabled then
      let will_be_valid :=
        if 1 <? size then default false (valid_pipe s !! Z.to_nat (size - 2))
        else if size =? 1 then valid_in
        else false in
      State (internal_cnt s + 1)
            (if valid_in then
               if s_in =? N cfg - 1 then 0 else s_in + 1
             else s_in)
            (if stage_sync s in_valid then N cfg - 1
             else if will_be_valid then Z.rem (out_cnt_reg s + 1) (N cfg)
             else out_cnt_reg s)
            will_be_valid
            (shift_valid_pipe valid_in (valid_pipe s))
    else s.

(** [comb_logic()], one activation.  The method is sensitive to
    [internal_cnt], [rst], [final_stage_out] and [valid_pipe]; the counters
    it reads change only on edges that also change [internal_cnt], so
    [in_index], [out_index], [out_valid] and [out_data] follow the
    registers.  It is not sensitive to [internal_enable], which
    [control_logic] drives in the same delta cycle or later: [enable_read]
    is the value [internal_enable.read()] returns in this activation, and
    [status] keeps what the last activation wrote. *)
Definition comb_logic (rst enable_read : bool) (final_stage_out : complex_t)
    (s : state) : outputs :=
  if rst then Outputs false (-1) (-1) false czero
  else
    let is_valid := default false (last (valid_pipe s)) in
    if is_valid then
      Outputs (enable_read || flushing s) (samples_in_cnt s)
              (out_cnt_reg s) true final_stage_out
    else
      Outputs (enable_read || flushing s) (samples_in_cnt s)
              (-1) false czero.

(** The registers after the clock edges that sample [in_valids], first
    element first, with [rst] low. *)
Fixpoint run (cfg : config) (in_valids : list bool) (s : state) : state :=
  match in_valids with
  | [] => s
  | v :: rest => run cfg rest (seq_logic cfg false v s)
  end.

(** The latency the specification gives: the sum over the stages
    [i = first .. first + count - 1] of [N / 2^(i+1) + 1]. *)
Fixpoint spec_latency (count : nat) (n first : Z) : Z :=
  match count with
  | O => 0
  | S count' => (n / 2 ^ (first + 1) + 1) + spec_latency count' n (first + 1)
  end.

End FFT.

(** ** memory.h: the shared memory *)

Module Memory.

(** One port of [read()]: the value [data_out[i]] holds after the edge. *)
Definition read (MEM_SIZE : Z) (rst : bool) (mem : list Z) (raddr : Z) : Z :=
  if negb rst then
    if raddr <? MEM_SIZE then default 0 (mem !! Z.to_nat raddr) else 0
  else 0.

(** [write()]. *)
Definition write (MEM_SIZE : Z) (rst wrt_en : bool) (waddr data_in : Z)
    (mem : list Z) : list Z :=
  if wrt_en && negb rst && (waddr <? MEM_SIZE)
  then <[Z.to_nat waddr := data_in]> mem else mem.

(** [clear()]. *)
Definition clear (rst : bool) (mem : list Z) : list Z :=
  if rst then vec_fill mem 0 else mem.

End Memory.

(** ** dma.h: address generator and unpacker *)

Module DMA.

(** The registers and output ports written by [seq_logic]. *)
Record state := State {
  busy : bool;
  mem_addr : Z;
  active : bool;
  sample_counter : Z;
  read_req : bool;
  read_wait : bool;
  current_addr : Z
}.

(** The control inputs sampled at a clock edge. *)
Record inputs := Inputs {
  rst : bool;
  start : bool;
  base_addr : Z;
  num_samples : Z
}.

(** The ports driven by [comb_logic]. *)
Record outputs := Outputs {
  fft_valid : bool;
  fft_data : complex_t
}.

(** Every signal at its default value, as simulation starts. *)
Definition initial : state := State false 0 false 0 false false 0.

(** The branch [if (start.read() && !active.read())]: its writes, in
    program order, applied to the pending values [p]. *)
Definition on_start (ADDR_WIDTH : Z) (i : inputs) (p : state) : state :=
  State true (base_addr i) true 1 false (read_wait p)
        (wrap ADDR_WIDTH (base_addr i + 1)).

(** The branch [if (active.read())]: [s] holds the values read, [p] the
    pending writes; the result pairs the new pending values with the
    [issuing_read] flag the branch leaves ([prev] when it does not set
    it). *)
Definition on_active (ADDR_WIDTH : Z) (i : inputs) (s p : state)
    (prev : bool) : state * bool :=
  let count := sample_counter s in
  let total := num_samples i in
  if count <? total then
    (State (busy p) (current_addr s) (active p) (count + 1) (read_req p)
           (read_wait p) (wrap ADDR_WIDTH (current_addr s + 1)), true)
  else if negb (read_req s) && negb (read_wait s) then
    (State false (mem_addr p) false (sample_counter p) (read_req p)
           (read_wait p) (current_addr p), prev)
  else (p, prev).

(** [seq_logic()], one rising clock edge. *)
Definition seq_logic (ADDR_WIDTH : Z) (i : inputs) (s : state) : state :=
  if rst i then State false 0 false 0 false false 0
  else
    let issuing_read := false in
    let '(p1, issuing_read) :=
      if start i && negb (active s)
      then (on_start ADDR_WIDTH i s, true) else (s, issuing_read) in
    let '(p2, issuing_read) :=
      if active s then on_active ADDR_WIDTH i s p1 issuing_read
      else (p1, issuing_read) in
    State (busy p2) (mem_addr p2) (active p2) (sample_counter p2)
          (read_wait s) issuing_read (current_addr p2).

(** [comb_logic()]: [raw.range(63, 32).to_uint()] and
    [raw.range(31, 0).to_uint()] for 64-bit words, [raw.to_uint()]
    otherwise. *)
Definition comb_logic (DATA_WIDTH : Z) (s : state) (mem_data : Z) : outputs :=
  if read_req s then
    let raw := mem_data in
    if DATA_WIDTH =? 64 then
      let r_int := Z.land (Z.shiftr raw 32) (Z.ones 32) in
      let i_int := Z.land raw (Z.ones 32) in
      Outputs true (Complex (double_of_uint r_int) (double_of_uint i_int))
    else
      Outputs true (Complex (double_of_uint (Z.land raw (Z.ones 32))) 0%float)
  else Outputs false czero.

(** The registers after the clock edges that sample [ins], first element
    first. *)
Fixpoint run (ADDR_WIDTH : Z) (ins : list inputs) (s : state) : state :=
  match ins with
  | [] => s
  | i :: rest => run ADDR_WIDTH rest (seq_logic ADDR_WIDTH i s)
  end.

(** A DMA wired to one read port of the memory, as the testbenches do:
    [mem_addr] drives [raddr], [data_out] drives [mem_data].  The pair is
    the DMA registers and the memory's [data_out] signal; the memory
    content [mem] is not written during the run. *)
Definition system_edge (ADDR_WIDTH MEM_SIZE : Z) (mem : list Z) (i : inputs)
    (sd : state * Z) : state * Z :=
  (seq_logic ADDR_WIDTH i sd.1, Memory.read MEM_SIZE (rst i) mem (mem_addr sd.1)).

Fixpoint system_run (ADDR_WIDTH MEM_SIZE : Z) (mem : list Z)
    (ins : list inputs) (sd : state * Z) : state * Z :=
  match ins with
  | [] => sd
  | i :: rest =>
      system_run ADDR_WIDTH MEM_SIZE mem rest
        (system_edge ADDR_WIDTH MEM_SIZE mem i sd)
  end.

End DMA.

(** ** interleaved_fft.h: the stagger scheduler *)

Module InterleavedFFT.

(** The registers of [control_logic]. *)
Record state := State {
  active_stagger : bool;
  stagger_counter : Z;
  dma_starts : list bool
}.

(** Every signal at its default value: [dma_starts] has [NUM_CORES]
    entries. *)
Definition initial (num_cores : Z) : state :=
  State false 0 (replicate (Z.to_nat num_cores) false).

(** The locals [is_active] and [cnt] once the branch
    [if (start.read() && !is_active)] has run. *)
Definition is_active_at (start : bool) (s : state) : bool :=
  if start && negb (active_stagger s) then true else active_stagger s.

Definition cnt_at (start : bool) (s : state) : Z :=
  if start && negb (active_stagger s) then 0 else stagger_counter s.

(** The loop [for (i = 0; i < num_cores; ++i)] over [dma_starts] while
    active: entry [i] becomes [cnt == i * hop]. *)
Definition pulse_starts (hop cnt : Z) (starts : list bool) : list bool :=
  imap (fun i _ => cnt =? Z.of_nat i * hop) starts.

(** [control_logic()], one rising clock edge. *)
Definition control_logic (num_cores hop : Z) (rst start : bool) (s : state)
    : state :=
  if rst then State false 0 (vec_fill (dma_starts s) false)
  else
    let is_active := is_active_at start s in
    let cnt := cnt_at start s in
    if is_active then
      State (if num_cores * hop + 2 <? cnt then false
             else if start && negb (active_stagger s) then true
             else active_stagger s)
            (cnt + 1)
            (pulse_starts hop cnt (dma_starts s))
    else
      State (active_stagger s) (stagger_counter s)
            (vec_fill (dma_starts s) false).

(** The registers after the clock edges that sample the [start] values
    [starts], first element first, with [rst] low. *)
Fixpoint run (num_cores hop : Z) (starts : list bool) (s : state) : state :=
  match starts with
  | [] => s
  | st :: rest => run num_cores hop rest (control_logic num_cores hop false st s)
  end.

End InterleavedFFT.

(** ** Runs of a stage *)

(** The controls and the sample a stage reads at one clock edge. *)
Record stage_edge := StageEdge {
  se_rst : bool;
  se_enable : bool;
  se_sync : bool;
  se_input : complex_t
}.

Section stage_runs.
Context `{Libm}.

(** A stage clocked through the edges [es], first element first. *)
Fixpoint stage_run (cfg : Stage.config) (es : list stage_edge)
    (s : Stage.state) : option Stage.state :=
  match es with
  | [] => Some s
  | e :: rest =>
      s' ← Stage.process cfg (se_rst e) (se_enable e) (se_sync e)
             (se_input e) s;
      stage_run cfg rest s'
  end.

(** Enabled edges without reset or sync, one per input sample: the values
    written to [out_data], in order, and the final state. *)
Fixpoint stage_feed (cfg : Stage.config) (inputs : list complex_t)
    (s : Stage.state) : option (list complex_t * Stage.state) :=
  match inputs with
  | [] => Some ([], s)
  | x :: rest =>
      s' ← Stage.process cfg false true false x s;
      r ← stage_feed cfg rest s';
      Some (Stage.out_data s' :: r.1, r.2)
  end.

(** The twiddled differences of the pairs [(a_j, b_j)], the first pair
    taking the twiddle index [k]: entry [j] is
    [(a_j - b_j) * get_twiddle(k + j, N_stage)]. *)
Fixpoint butterfly_diffs (cfg : Stage.config) (k : Z)
    (xs ys : list complex_t) : list complex_t :=
  match xs, ys with
  | a :: xs', b :: ys' =>
      cmul (csub a b) (Stage.get_twiddle k (Stage.N_stage cfg))
      :: butterfly_diffs cfg (k + 1) xs' ys'
  | _, _ => []
  end.

End stage_runs.

(** ** The FFT datapath *)

(** What one clock edge samples at the ports of an FFT. *)
Record fft_edge_in := FftEdgeIn {
  fe_rst : bool;
  fe_in_valid : bool;
  fe_in_data : complex_t
}.

Section fft_datapath.
Context `{Libm}.

(** The stage states a constructed FFT starts with: the constructor
    builds stage [i] with [Stage(name, current_N, i, offset)]. *)
Definition initial_stages (cfg : FFT.config) : option (list Stage.state) :=
  mapM (fun c => snd <$> Stage.ctor (Stage.N_stage c) 0 (Stage.init_offset c))
       (FFT.stages cfg).

(** A stage inside the chain: the port [out_data] is bound to an
    [sc_signal<complex_t>] ([stage_signals[i]], or [final_stage_out] for
    the last stage), and the field [out_data] of its state holds the
    current value of that signal.  [settle s s'] is the stage after the
    update phase of an edge that found it in [s] and in which [process]
    returned [s']. *)
Definition settle (s s' : Stage.state) : Stage.state :=
  Stage.State (Stage.cnt s')
    (signal_write (Stage.out_data s) (Stage.out_data s'))
    (Stage.buf_in s') (Stage.buf_out s').

(** One clock edge of the stage chain as the constructor wires it: every
    stage shares [rst], [internal_enable] and [stage_sync]; stage 0 reads
    [in_data], stage [i > 0] reads the signal driven by stage [i - 1] as
    it stands before the edge. *)
Fixpoint stages_edge (cfgs : list Stage.config) (rst enable sync : bool)
    (input : complex_t) (sts : list Stage.state) : option (list Stage.state) :=
  match cfgs, sts with
  | cfg :: cfgs', s :: sts' =>
      s' ← Stage.process cfg rst enable sync input s;
      rest ← stages_edge cfgs' rst enable sync (Stage.out_data s) sts';
      Some (settle s s' :: rest)
  | _, _ => Some []
  end.

(** The current value of the signal [final_stage_out], which the last
    stage drives. *)
Definition final_stage_out (sts : list Stage.state) : complex_t :=
  default czero (Stage.out_data <$> last sts).

(** One clock edge of the whole FFT: the registers of [seq_logic] and the
    stages, all reading the signals as they stand before the edge. *)
Definition fft_edge (cfg : FFT.config) (i : fft_edge_in)
    (st : FFT.state * list Stage.state) : option (FFT.state * list Stage.state) :=
  let enable := FFT.internal_enable st.1 (fe_in_valid i) in
  let sync := FFT.stage_sync st.1 (fe_in_valid i) in
  sts' ← stages_edge (FFT.stages cfg) (fe_rst i) enable sync (fe_in_data i) st.2;
  Some (FFT.seq_logic cfg (fe_rst i) (fe_in_valid i) st.1, sts').

(** What [comb_logic] writes to the output ports between two edges. *)
Definition fft_outputs (rst enable_read : bool)
    (st : FFT.state * list Stage.state) : FFT.outputs :=
  FFT.comb_logic rst enable_read (final_stage_out st.2) st.1.

Fixpoint fft_run (cfg : FFT.config) (ins : list fft_edge_in)
    (st : FFT.state * list Stage.state) : option (FFT.state * list Stage.state) :=
  match ins with
  | [] => Some st
  | i :: rest => st' ← fft_edge cfg i st; fft_run cfg rest st'
  end.

End fft_datapath.

Section fft_observation.
Context `{Libm}.

(** What [comb_logic] writes to the output ports after the edges [ins]:
    [out_valid], [out_index] and [out_data]. *)
Definition fft_observe (cfg : FFT.config) (ins : list fft_edge_in)
    (st : FFT.state * list Stage.state) : option (bool * Z * complex_t) :=
  st' ← fft_run cfg ins st;
  let o := fft_outputs false false st' in
  Some (FFT.out_valid o, FFT.out_index o, FFT.out_data o).

(** The observations after 0, 1, ..., [n - 1] edges of [ins]. *)
Definition fft_trace (cfg : FFT.config) (ins : list fft_edge_in)
    (st : FFT.state * list Stage.state) (from n : nat)
    : list (option (bool * Z * complex_t)) :=
  map (fun j => fft_observe cfg (take j ins) st) (seq from n).

(** The radix-2 decimation-in-frequency flow graph on four points, its
    results in the order of the graph's outputs (bins 0, 2, 1, 3). *)
Definition dif4 (x0 x1 x2 x3 : complex_t) : list complex_t :=
  let a0 := cadd x0 x2 in
  let a1 := cadd x1 x3 in
  let b0 := cmul (csub x0 x2) (Stage.get_twiddle 0 4) in
  let b1 := cmul (csub x1 x3) (Stage.get_twiddle 1 4) in
  [cadd a0 a1; cmul (csub a0 a1) (Stage.get_twiddle 0 2);
   cadd b0 b1; cmul (csub b0 b1) (Stage.get_twiddle 0 2)].

(** [n] valid samples, then idle cycles carrying the values [gs]. *)
Definition valid_samples (xs : list complex_t) : list fft_edge_in :=
  map (FftEdgeIn false true) xs.

Definition idle_cycles (gs : list complex_t) : list fft_edge_in :=
  map (FftEdgeIn false false) gs.

(** The trace of outputs that carries [ys] on valid cycles with indices
    0, 1, 2, ... *)
Definition valid_outputs (ys : list complex_t)
    : list (option (bool * Z * complex_t)) :=
  imap (fun i y => Some (true, Z.of_nat i, y)) ys.

Definition no_output : option (bool * Z * complex_t) :=
  Some (false, -1, czero).

End fft_observation.

(** ** Runs of the FFT registers *)

(** The registers of [seq_logic] clocked through edges that sample
    [(rst, in_valid)], first element first. *)
Fixpoint fft_regs_run (cfg : FFT.config) (ctl : list (bool * bool))
    (s : FFT.state) : FFT.state :=
  match ctl with
  | [] => s
  | c :: rest => fft_regs_run cfg rest (FFT.seq_logic cfg c.1 c.2 s)
  end.

(** The ranges the counters keep, and the fixed length of the validity
    shift register. *)
Definition fft_regs_ok (cfg : FFT.config) (s : FFT.state) : Prop :=
  0 <= FFT.samples_in_cnt s < FFT.N cfg /\
  0 <= FFT.out_cnt_reg s < FFT.N cfg /\
  length (FFT.valid_pipe s) = Z.to_nat (FFT.latency_cycles cfg).

(** The registers while a stream of valid samples fills an empty
    pipeline, [j >= 1] edges after the first sample: the [j] newest
    entries of the shift register are set, and the output counter waits at
    [N - 1] until the first sample is about to leave. *)
Definition streaming (cfg : FFT.config) (L j : nat) (s : FFT.state) : Prop :=
  length (FFT.valid_pipe s) = L /\
  (forall i, (i < L)%nat ->
     FFT.valid_pipe s !! i = Some (bool_decide (i < j)%nat)) /\
  FFT.out_cnt_reg s
  = if decide (j < L)%nat then FFT.N cfg - 1
    else (Z.of_nat j - Z.of_nat L) mod FFT.N cfg.

(** ** DMA transfers *)

(** The address registers [j] edges after the edge that accepted a start
    at [b], for a transfer of [n] samples: the address on the bus is the
    one issued last, [current_addr] the next one to issue. *)
Definition transfer_addr (AW b n j : Z) (s : DMA.state) : Prop :=
  DMA.mem_addr s = wrap AW (b + Z.min j (n - 1)) /\
  DMA.current_addr s = wrap AW (b + Z.min (j + 1) n).

(** ** The scheduler wired to its DMA cores *)

(** One clock edge of the scheduler and of the DMA cores it starts, as
    the constructor of [InterleavedFFT] wires them: core [i] samples
    [dma_starts[i]], [base_addrs[i]] and [num_samples[i]] as they stand
    before the edge. *)
Definition cores_edge (num_cores hop AW : Z) (rst start : bool)
    (base_addrs num_samples : list Z)
    (st : InterleavedFFT.state * list DMA.state)
    : InterleavedFFT.state * list DMA.state :=
  (InterleavedFFT.control_logic num_cores hop rst start st.1,
   imap (fun i d =>
           DMA.seq_logic AW
             (DMA.Inputs rst
                (default false (InterleavedFFT.dma_starts st.1 !! i))
                (default 0 (base_addrs !! i))
                (default 0 (num_samples !! i))) d) st.2).

(** The edges that sample the global [start] values [starts], with [rst]
    low and the configuration ports held. *)
Fixpoint cores_run (num_cores hop AW : Z) (base_addrs num_samples : list Z)
    (starts : list bool) (st : InterleavedFFT.state * list DMA.state)
    : InterleavedFFT.state * list DMA.state :=
  match starts with
  | [] => st
  | v :: rest =>
      cores_run num_cores hop AW base_addrs num_samples rest
        (cores_edge num_cores hop AW false v base_addrs num_samples st)
  end.

(** ** tb_interleaved_fft.h: packing a sample into a memory word *)

(** [(unsigned int)f]: the value truncated toward zero.  The conversion
    is undefined when the truncated value is not an [unsigned int]
    (negative, 2^32 or more, infinite or not a number): the model answers
    [None]. *)
Definition uint_of_double (f : float) : option Z :=
  match FloatOps.Prim2SF f with
  | SpecFloat.S754_zero _ => Some 0
  | SpecFloat.S754_finite sign m e =>
      let magnitude :=
        if 0 <=? e then Z.pos m * 2 ^ e else Z.pos m / 2 ^ (- e) in
      if sign then (if magnitude =? 0 then Some 0 else None)
      else if magnitude <? 2 ^ 32 then Some magnitude else None
  | _ => None
  end.

(** [pack_complex(r, i)]: [res.range(63, 32) = r_int] and
    [res.range(31, 0) = i_int] on a zero word. *)
Definition pack_complex (r i : float) : option Z :=
  r_int ← uint_of_double r;
  i_int ← uint_of_double i;
  Some (Z.lor (Z.shiftl r_int 32) i_int).

(** ** Registers that agree on all but [flushing] *)

(** [seq_logic] does not write [flushing] on a reset edge, and only
    [status] reads it: two register files related this way look the same
    at [out_valid], [out_index] and [out_data]. *)
Definition same_but_flushing (a b : FFT.state) : Prop :=
  FFT.internal_cnt a = FFT.internal_cnt b /\
  FFT.samples_in_cnt a = FFT.samples_in_cnt b /\
  FFT.out_cnt_reg a = FFT.out_cnt_reg b /\
  FFT.valid_pipe a = FFT.valid_pipe b.

(** ** Values that differ in the sign of a zero *)

(** The same [double], or two zeros.  This is what a signal may change in
    a value it carries: it holds [v'] with [v' == v] when [v] was written,
    and [==] on [double]s other than NaN is this relation. *)
Definition fsame (x y : float) : Prop :=
  x = y \/ (PrimFloat.is_zero x = true /\ PrimFloat.is_zero y = true).

Definition csame (a b : complex_t) : Prop :=
  fsame (real a) (real b) /\ fsame (imag a) (imag b).

(** The same relation on the specification-level floats. *)
Definition sf_same (X Y : SpecFloat.spec_float) : Prop :=
  X = Y \/
  exists s s', X = SpecFloat.S754_zero s /\ Y = SpecFloat.S754_zero s'.

(** Stage states with the same counter and buffers of the same shape,
    every sample the same up to the sign of a zero. *)
Definition stage_same (a b : Stage.state) : Prop :=
  Stage.cnt a = Stage.cnt b /\
  csame (Stage.out_data a) (Stage.out_data b) /\
  Forall2 csame (Stage.buf_in a) (Stage.buf_in b) /\
  Forall2 csame (Stage.buf_out a) (Stage.buf_out b).

(** Observations with the same [out_valid] and [out_index], and the same
    [out_data] up to the sign of a zero. *)
Definition obs_same (a b : option (bool * Z * complex_t)) : Prop :=
  match a, b with
  | Some (v, i, d), Some (v', i', d') => v = v' /\ i = i' /\ csame d d'
  | None, None => True
  | _, _ => False
  end.

(** A stage right after a reset edge: counter at [init_offset], zeroed
    buffers, and on its output signal the zero just written or a zero of
    the other sign the signal held. *)
Definition stage_is_reset (cfg : Stage.config) (s : Stage.state) : Prop :=
  Stage.cnt s = Stage.init_offset cfg /\
  csame (Stage.out_data s) czero /\
  Stage.buf_in s = replicate (Z.to_nat (Stage.delay_len cfg)) czero /\
  Stage.buf_out s = replicate (Z.to_nat (Stage.delay_len cfg)) czero.

(** ** Predicates used by the proofs *)

(** A small polynomial stand-in for <cmath>, to run the model on concrete
    inputs. *)
Definition poly_libm : Libm := {|
  cos x := (1 - x * x / 2 + x * x * x * x / 24)%float;
  sin x := (x - x * x * x / 6 + x * x * x * x * x / 120)%float
|}.

(** The first valid sample sits at entry [j] and nothing is set behind
    it: the register [j + 1] enabled edges after that sample arrived at an
    empty pipeline. *)
Definition wave (j : nat) (pipe : list bool) : Prop :=
  pipe !! j = Some true /\ forall i, (j < i)%nat -> pipe !! i <> Some true.

(** What every reachable state satisfies: [busy] follows [active], and an
    idle DMA has no request in its pipeline. *)
Definition dma_inv (s : DMA.state) : Prop :=
  DMA.busy s = DMA.active s /\
  (DMA.active s = false ->
   DMA.read_req s = false /\ DMA.read_wait s = false).

(** The control registers [j] edges after the edge that accepted a start,
    for a transfer of [n >= 1] samples. *)
Definition transfer_phase (n j : Z) (s : DMA.state) : Prop :=
  DMA.busy s = (j <=? n + 1) /\
  DMA.active s = (j <=? n + 1) /\
  DMA.sample_counter s = Z.min (j + 1) n /\
  DMA.read_req s = (1 <=? j) && (j <=? n) /\
  DMA.read_wait s = (j <=? n - 1).

(** The scheduler registers after edge [j] of a stagger sequence, edge 0
    being the one that accepted the global start. *)
Definition stagger_phase (c h : Z) (j : Z) (s : InterleavedFFT.state) : Prop :=
  InterleavedFFT.active_stagger s = (j <=? c * h + 2) /\
  InterleavedFFT.stagger_counter s = j + 1 /\
  Z.of_nat (length (InterleavedFFT.dma_starts s)) = c /\
  forall i : nat, Z.of_nat i < c ->
    InterleavedFFT.dma_starts s !! i = Some (j =? Z.of_nat i * h).

(** ** The size contract of the specification *)

Definition power_of_two (n : Z) : Prop := exists k, 0 <= k /\ n = 2 ^ k.

(** The sizes the specification allows: a power of two, at least 2. *)
Definition well_formed_size (n : Z) : Prop := 2 <= n /\ power_of_two n.

(** The specification's fail-fast rule: every other size is rejected by
    both constructors. *)
Definition rejects_malformed_sizes : Prop :=
  forall n, ~ well_formed_size n ->
    FFT.ctor n = None /\ forall id offset, Stage.ctor n id offset = None.

(** * Properties *)

(** ** Vector accesses inside the bounds *)

Lemma vec_get_Some {A} (v : list A) (i : Z) :
  0 <= i < Z.of_nat (length v) ->
  exists x, vec_get v i = Some x /\ v !! Z.to_nat i = Some x.
Proof.
  intros Hi. unfold vec_get.
  destruct (Z.leb_spec 0 i) as [_|]; [|lia].
  destruct (lookup_lt_is_Some_2 v (Z.to_nat i)) as [x Hx]; [lia|].
  exists x. by rewrite Hx.
Qed.

Lemma vec_set_Some {A} (v : list A) (i : Z) (x : A) :
  0 <= i < Z.of_nat (length v) ->
  vec_set v i x = Some (<[Z.to_nat i := x]> v).
Proof.
  intros Hi. unfold vec_set.
  destruct (Z.leb_spec 0 i); [|lia].
  destruct (Z.ltb_spec i (Z.of_nat (length v))); [done|lia].
Qed.

Lemma length_vec_fill {A} (v : list A) (x : A) :
  length (vec_fill v x) = length v.
Proof. apply length_replicate. Qed.

Lemma vec_fill_same_length {A} (v1 v2 : list A) (x : A) :
  length v1 = length v2 -> vec_fill v1 x = vec_fill v2 x.
Proof. unfold vec_fill. by intros ->. Qed.

Lemma lookup_replicate_lt {A} (n i : nat) (x y : A) :
  replicate n x !! i = Some y -> y = x.
Proof. intros Hl. by apply lookup_replicate in Hl as [-> _]. Qed.

(** ** Stage *)

Section stage_properties.
Context `{Libm}.

Lemma synced_buf_in_length (sync : bool) (s : Stage.state) :
  length (Stage.synced_buf_in sync s) = length (Stage.buf_in s).
Proof. destruct sync; [apply length_vec_fill|done]. Qed.

Lemma synced_buf_out_length (sync : bool) (s : Stage.state) :
  length (Stage.synced_buf_out sync s) = length (Stage.buf_out s).
Proof. destruct sync; [apply length_vec_fill|done]. Qed.

Lemma synced_cnt_range (cfg : Stage.config) (sync : bool) (s : Stage.state) :
  Stage.wf cfg s ->
  0 <= Stage.synced_cnt cfg sync s < Stage.N_stage cfg.
Proof. intros [? ? ? ? ? ?]. by destruct sync. Qed.

(** What an enabled edge computes, in terms of the counter and buffers
    left by the [sync] branch. *)
Lemma process_enabled (cfg : Stage.config) (sync : bool) (input : complex_t)
    (s : Stage.state) :
  Stage.N_stage cfg <> 0 ->
  Stage.process cfg false true sync input s =
    let c := Stage.synced_cnt cfg sync s in
    let bi := Stage.synced_buf_in sync s in
    let bo := Stage.synced_buf_out sync s in
    if c <? Stage.delay_len cfg then
      bi' ← vec_set bi c input;
      o ← vec_get bo c;
      Some (Stage.State (Z.rem (c + 1) (Stage.N_stage cfg)) o bi' bo)
    else
      a ← vec_get bi (c - Stage.delay_len cfg);
      bo' ← vec_set bo (c - Stage.delay_len cfg)
              (cmul (csub a input)
                 (Stage.get_twiddle (c - Stage.delay_len cfg) (Stage.N_stage cfg)));
      Some (Stage.State (Z.rem (c + 1) (Stage.N_stage cfg)) (cadd a input) bi bo').
Proof.
  intros Hn. unfold Stage.process.
  destruct (Z.eqb_spec (Stage.N_stage cfg) 0) as [|_]; [done|].
  reflexivity.
Qed.

(** The two phases of an enabled edge, as equations. *)
Lemma process_phase1 (cfg : Stage.config) (s : Stage.state) (sync : bool)
    (input : complex_t) :
  Stage.wf cfg s ->
  let c := Stage.synced_cnt cfg sync s in
  let bi := Stage.synced_buf_in sync s in
  let bo := Stage.synced_buf_out sync s in
  c < Stage.delay_len cfg ->
  exists o,
    bo !! Z.to_nat c = Some o /\
    Stage.process cfg false true sync input s
    = Some (Stage.State ((c + 1) mod Stage.N_stage cfg) o
              (<[Z.to_nat c := input]> bi) bo).
Proof.
  intros Hwf c bi bo Hlt.
  pose proof (synced_cnt_range cfg sync s Hwf) as Hc. fold c in Hc.
  pose proof (synced_buf_in_length sync s) as Hbi. fold bi in Hbi.
  pose proof (synced_buf_out_length sync s) as Hbo. fold bo in Hbo.
  destruct Hwf as [Hsize Hdelay Hoff Hcnt Hlin Hlout].
  rewrite process_enabled by lia. fold c bi bo. cbv zeta.
  rewrite Z.rem_mod_nonneg by lia.
  destruct (Z.ltb_spec c (Stage.delay_len cfg)) as [_|]; [|lia].
  rewrite vec_set_Some by lia. simpl.
  destruct (vec_get_Some bo c) as (o & -> & Ho); [lia|]. simpl.
  by exists o.
Qed.

Lemma process_phase2 (cfg : Stage.config) (s : Stage.state) (sync : bool)
    (input : complex_t) :
  Stage.wf cfg s ->
  let c := Stage.synced_cnt cfg sync s in
  let bi := Stage.synced_buf_in sync s in
  let bo := Stage.synced_buf_out sync s in
  let k := c - Stage.delay_len cfg in
  Stage.delay_len cfg <= c ->
  exists a,
    bi !! Z.to_nat k = Some a /\
    Stage.process cfg false true sync input s
    = Some (Stage.State ((c + 1) mod Stage.N_stage cfg) (cadd a input) bi
              (<[Z.to_nat k :=
                   cmul (csub a input)
                        (Stage.get_twiddle k (Stage.N_stage cfg))]> bo)).
Proof.
  intros Hwf c bi bo k Hge.
  pose proof (synced_cnt_range cfg sync s Hwf) as Hc. fold c in Hc.
  pose proof (synced_buf_in_length sync s) as Hbi. fold bi in Hbi.
  pose proof (synced_buf_out_length sync s) as Hbo. fold bo in Hbo.
  destruct Hwf as [Hsize Hdelay Hoff Hcnt Hlin Hlout].
  rewrite process_enabled by lia. fold c bi bo. cbv zeta. fold k.
  rewrite Z.rem_mod_nonneg by lia.
  destruct (Z.ltb_spec c (Stage.delay_len cfg)) as [|_]; [lia|].
  destruct (vec_get_Some bi k) as (a & -> & Ha); [lia|]. simpl.
  rewrite vec_set_Some by lia. simpl.
  by exists a.
Qed.

(** C2: on an enabled edge without reset, with [c] the counter after the
    [sync] branch: for [c < delay_len] the input goes to [buf_in[c]] and
    [buf_out[c]] is emitted; otherwise, with [k = c - delay_len] and
    [a = buf_in[k]], the sum [a + input] is emitted on this edge and
    [(a - input) * W] goes to [buf_out[k]], with [W = (cos t, sin t)] for
    the angle [t = -2 pi k / N_stage].  Sum, difference and product are
    the component-wise [double] operations of [complex_t]:
    [(a.re + x.re, a.im + x.im)] and, with [d = a - input],
    [(d.re * W.re - d.im * W.im, d.re * W.im + d.im * W.re)]. *)
Theorem stage_process_phases (cfg : Stage.config) (s : Stage.state)
    (sync : bool) (input : complex_t) :
  Stage.wf cfg s ->
  let c := Stage.synced_cnt cfg sync s in
  let bi := Stage.synced_buf_in sync s in
  let bo := Stage.synced_buf_out sync s in
  exists s',
    Stage.process cfg false true sync input s = Some s' /\
    Stage.wf cfg s' /\
    Stage.cnt s' = (c + 1) mod Stage.N_stage cfg /\
    (c < Stage.delay_len cfg ->
       Stage.buf_in s' = <[Z.to_nat c := input]> bi /\
       Stage.buf_in s' !! Z.to_nat c = Some input /\
       bo !! Z.to_nat c = Some (Stage.out_data s') /\
       Stage.buf_out s' = bo) /\
    (Stage.delay_len cfg <= c ->
       let k := c - Stage.delay_len cfg in
       let W := Stage.get_twiddle k (Stage.N_stage cfg) in
       exists a,
         bi !! Z.to_nat k = Some a /\
         Stage.out_data s' = cadd a input /\
         Stage.out_data s'
         = Complex (real a + real input)%float (imag a + imag input)%float /\
         Stage.buf_out s' = <[Z.to_nat k := cmul (csub a input) W]> bo /\
         Stage.buf_out s' !! Z.to_nat k = Some (cmul (csub a input) W) /\
         Stage.buf_out s' !! Z.to_nat k
         = Some (Complex
                   ((real a - real input) * real W
                    - (imag a - imag input) * imag W)%float
                   ((real a - real input) * imag W
                    + (imag a - imag input) * real W)%float) /\
         Stage.buf_in s' = bi /\
         W = Complex
               (cos ((-2 * Stage.PI) * double_of_int k
                     / double_of_int (Stage.N_stage cfg))%float)
               (sin ((-2 * Stage.PI) * double_of_int k
                     / double_of_int (Stage.N_stage cfg))%float)).
Proof.
  intros Hwf c bi bo.
  pose proof (synced_cnt_range cfg sync s Hwf) as Hc. fold c in Hc.
  pose proof (synced_buf_in_length sync s) as Hbi. fold bi in Hbi.
  pose proof (synced_buf_out_length sync s) as Hbo. fold bo in Hbo.
  pose proof (process_phase1 cfg s sync input Hwf) as Hp1.
  pose proof (process_phase2 cfg s sync input Hwf) as Hp2.
  cbv zeta in Hp1, Hp2. fold c bi bo in Hp1, Hp2.
  destruct Hwf as [Hsize Hdelay Hoff Hcnt Hlin Hlout].
  assert (Hmod : 0 <= (c + 1) mod Stage.N_stage cfg < Stage.N_stage cfg)
    by (apply Z.mod_pos_bound; lia).
  destruct (Z.lt_ge_cases c (Stage.delay_len cfg)) as [Hlt|Hge].
  - destruct (Hp1 Hlt) as (o & Ho & ->).
    eexists. split; [reflexivity|]. simpl.
    split; [|split; [done|split]].
    + constructor; simpl; rewrite ?length_insert; lia.
    + intros _. repeat split; try done.
      apply list_lookup_insert_eq. lia.
    + lia.
  - destruct (Hp2 Hge) as (a & Ha & ->).
    eexists. split; [reflexivity|]. simpl.
    split; [|split; [done|split]].
    + constructor; simpl; rewrite ?length_insert; lia.
    + lia.
    + intros _. exists a.
      assert (Hk : (Z.to_nat (c - Stage.delay_len cfg) < length bo)%nat) by lia.
      repeat split; try done;
        rewrite list_lookup_insert_eq by exact Hk; reflexivity.
Qed.

End stage_properties.

(** An instance: a 4-point stage on the last edge of its period, pairing
    [buf_in[1] = 3 + 1j] with the input [1 + 4j].  The sum is [4 + 5j];
    the difference [2 - 3j] is stored multiplied by the twiddle factor of
    index 1. *)
Lemma stage_process_phases_witness :
  exists s',
    Stage.process (H := poly_libm) (Stage.Config 4 2 0) false true false
      (Complex 1 4)
      (Stage.State 3 czero [czero; Complex 3 1] [czero; czero]) = Some s' /\
    Stage.cnt s' = 0 /\
    Stage.out_data s' = Complex 4 5 /\
    Stage.buf_in s' = [czero; Complex 3 1] /\
    Stage.buf_out s'
    = [czero;
       Complex (-0x1.7ca0203346c19p+1)%float (-0x1.08d391c1581d9p+1)%float].
Proof.
  destruct (stage_process_phases (H := poly_libm) (Stage.Config 4 2 0)
              (Stage.State 3 czero [czero; Complex 3 1] [czero; czero])
              false (Complex 1 4))
    as (s' & Hs' & _ & Hcnt & _ & Hphase2).
  - constructor; simpl; lia.
  - exists s'. split; [exact Hs'|].
    destruct Hphase2 as (a & Ha & _ & Hout & Hbuf & _ & Hslot & Hin & _);
      [simpl; lia|].
    simpl in Ha. injection Ha as <-.
    split; [exact Hcnt|]. split; [rewrite Hout; reflexivity|].
    split; [exact Hin|].
    destruct (Stage.buf_out s') as [|b0 [|b1 [|b2 bs]]]; try discriminate Hbuf.
    simpl in Hslot, Hbuf.
    assert (b0 = czero) as -> by congruence.
    injection Hslot as ->. reflexivity.
Defined.

Section stage_sync_properties.
Context `{Libm}.

(** C6: an enabled edge with [sync] high takes the counter back to
    [init_offset] and zeroes both buffers before it handles the sample of
    that edge.  The state it leaves is therefore fixed by the
    configuration and the input alone: nothing of the old counter, the old
    buffers or the old output survives.  With [io = init_offset]:
    the counter is [(io + 1) mod N_stage]; for [io < delay_len] the
    output is the zero read from [buf_out[io]], [buf_in] is zero but for
    the input stored at [io], and [buf_out] is zero; otherwise, with
    [k = io - delay_len], the output is [0 + input], [buf_in] is zero and
    [buf_out] is zero but for [(0 - input) * W] at [k].  The edge equals
    an edge without [sync] taken from the counter [init_offset] and zeroed
    buffers. *)
Theorem stage_sync_clears (cfg : Stage.config) (s : Stage.state)
    (input : complex_t) :
  Stage.wf cfg s ->
  let io := Stage.init_offset cfg in
  let zeros := replicate (Z.to_nat (Stage.delay_len cfg)) czero in
  Stage.process cfg false true true input s
    = Stage.process cfg false true false input
        (Stage.State io (Stage.out_data s) zeros zeros) /\
  (forall s2, Stage.wf cfg s2 ->
     Stage.process cfg false true true input s2
     = Stage.process cfg false true true input s) /\
  exists s',
    Stage.process cfg false true true input s = Some s' /\
    Stage.wf cfg s' /\
    Stage.cnt s' = (io + 1) mod Stage.N_stage cfg /\
    (io < Stage.delay_len cfg ->
       Stage.out_data s' = czero /\
       Stage.buf_in s' = <[Z.to_nat io := input]> zeros /\
       Stage.buf_out s' = zeros) /\
    (Stage.delay_len cfg <= io ->
       let k := io - Stage.delay_len cfg in
       let W := Stage.get_twiddle k (Stage.N_stage cfg) in
       Stage.out_data s'
       = Complex (0 + real input)%float (0 + imag input)%float /\
       Stage.buf_in s' = zeros /\
       Stage.buf_out s'
       = <[Z.to_nat k :=
             Complex
               ((0 - real input) * real W - (0 - imag input) * imag W)%float
               ((0 - real input) * imag W + (0 - imag input) * real W)%float]>
           zeros).
Proof.
  intros Hwf io zeros.
  assert (Hin : Stage.synced_buf_in true s = zeros).
  { unfold Stage.synced_buf_in, vec_fill, zeros. f_equal.
    destruct Hwf. lia. }
  assert (Hout : Stage.synced_buf_out true s = zeros).
  { unfold Stage.synced_buf_out, vec_fill, zeros. f_equal.
    destruct Hwf. lia. }
  assert (Hlen : length zeros = Z.to_nat (Stage.delay_len cfg))
    by apply length_replicate.
  split; [|split].
  - unfold Stage.process. cbn [Stage.cnt Stage.buf_in Stage.buf_out].
    change (vec_fill (Stage.buf_in s) czero)
      with (Stage.synced_buf_in true s).
    change (vec_fill (Stage.buf_out s) czero)
      with (Stage.synced_buf_out true s).
    by rewrite Hin, Hout.
  - intros s2 Hwf2. unfold Stage.process. simpl.
    rewrite (vec_fill_same_length (Stage.buf_in s2) (Stage.buf_in s)),
            (vec_fill_same_length (Stage.buf_out s2) (Stage.buf_out s));
      [done| |]; destruct Hwf, Hwf2; lia.
  - pose proof (process_phase1 cfg s true input Hwf) as Hp1.
    pose proof (process_phase2 cfg s true input Hwf) as Hp2.
    cbv zeta in Hp1, Hp2. rewrite Hin, Hout in Hp1, Hp2.
    change (Stage.synced_cnt cfg true s) with io in Hp1, Hp2.
    destruct Hwf as [Hsize Hdelay Hoff Hcnt Hlin Hlout]. fold io in Hoff.
    assert (Hmod : 0 <= (io + 1) mod Stage.N_stage cfg < Stage.N_stage cfg)
      by (apply Z.mod_pos_bound; lia).
    destruct (Z.lt_ge_cases io (Stage.delay_len cfg)) as [Hlt|Hge].
    + destruct (Hp1 Hlt) as (o & Ho & ->).
      apply lookup_replicate_lt in Ho as ->.
      eexists. split; [reflexivity|]. simpl. split; [|split; [done|split]].
      * constructor; simpl; rewrite ?length_insert, ?Hlen; lia.
      * done.
      * lia.
    + destruct (Hp2 Hge) as (a & Ha & ->).
      apply lookup_replicate_lt in Ha as ->.
      eexists. split; [reflexivity|]. simpl. split; [|split; [done|split]].
      * constructor; simpl; rewrite ?length_insert, ?Hlen; lia.
      * lia.
      * done.
Qed.

End stage_sync_properties.

(** An instance: a 4-point stage with offset 3, in mid-block and full of
    old samples, receives [5 + 2j] with [sync] high. *)
Lemma stage_sync_clears_witness :
  Stage.process (H := poly_libm) (Stage.Config 4 2 3) false true true
    (Complex 5 2)
    (Stage.State 1 (Complex 9 9) [Complex 7 7; Complex 6 6]
                   [Complex 8 8; Complex 4 4])
  = Some (Stage.State 0 (Complex 5 2) [czero; czero]
            [czero;
             Complex (-0x1.0df04145e12acp+1)%float 0x1.3ee45556e8a5bp+2%float]).
Proof.
  destruct (stage_sync_clears (H := poly_libm) (Stage.Config 4 2 3)
              (Stage.State 1 (Complex 9 9) [Complex 7 7; Complex 6 6]
                 [Complex 8 8; Complex 4 4]) (Complex 5 2))
    as (_ & _ & s' & -> & _ & Hcnt & _ & Hphase2).
  - constructor; simpl; lia.
  - destruct Hphase2 as (Hout & Hin & Hbuf); [simpl; lia|].
    destruct s' as [c o bi bo]. simpl in Hcnt, Hout, Hin, Hbuf.
    rewrite Hcnt, Hout, Hin, Hbuf. reflexivity.
Defined.

(** ** FFT: control signals *)

Lemma any_valid_in_pipe_true (pipe : list bool) :
  FFT.any_valid_in_pipe pipe = true <-> exists i, pipe !! i = Some true.
Proof.
  induction pipe as [|v rest IH]; simpl.
  - split; [done|]. by intros [i Hi].
  - destruct v.
    + split; [|done]. intros _. by exists 0%nat.
    + rewrite IH. split.
      * intros [i Hi]. by exists (S i).
      * intros [[|i] Hi]; [done|]. by exists i.
Qed.

Lemma any_valid_in_pipe_false (pipe : list bool) :
  FFT.any_valid_in_pipe pipe = false <-> forall i, pipe !! i <> Some true.
Proof.
  rewrite <- not_true_iff_false, any_valid_in_pipe_true. split.
  - intros Hno i Hi. apply Hno. by exists i.
  - intros Hall [i Hi]. by apply (Hall i).
Qed.

(** C7: [stage_sync] is high exactly when [samples_in_cnt] is 0,
    [in_valid] is high and no entry of the validity shift register is
    set. *)
Theorem fft_stage_sync_iff (s : FFT.state) (in_valid : bool) :
  FFT.stage_sync s in_valid = true <->
  FFT.samples_in_cnt s = 0 /\ in_valid = true /\
  (forall i, FFT.valid_pipe s !! i <> Some true).
Proof.
  unfold FFT.stage_sync.
  rewrite !andb_true_iff, negb_true_iff, any_valid_in_pipe_false, Z.eqb_eq.
  tauto.
Qed.

(** ** FFT: the validity shift register *)

Lemma shift_valid_pipe_length (v : bool) (pipe : list bool) :
  length (FFT.shift_valid_pipe v pipe) = length pipe.
Proof. apply length_imap. Qed.

Lemma shift_valid_pipe_head (v : bool) (pipe : list bool) :
  (0 < length pipe)%nat -> FFT.shift_valid_pipe v pipe !! 0%nat = Some v.
Proof.
  intros Hlen. unfold FFT.shift_valid_pipe. rewrite list_lookup_imap.
  destruct pipe; [simpl in Hlen; lia|done].
Qed.

Lemma shift_valid_pipe_tail (v : bool) (pipe : list bool) (i : nat) :
  (S i < length pipe)%nat ->
  FFT.shift_valid_pipe v pipe !! S i = pipe !! i.
Proof.
  intros Hlen. unfold FFT.shift_valid_pipe. rewrite list_lookup_imap.
  destruct (lookup_lt_is_Some_2 pipe (S i) Hlen) as [x ->].
  destruct (lookup_lt_is_Some_2 pipe i) as [y ->]; [lia|]. done.
Qed.

Lemma shift_valid_pipe_take (v : bool) (pipe : list bool) :
  FFT.shift_valid_pipe v pipe = take (length pipe) (v :: pipe).
Proof.
  apply list_eq. intros i.
  destruct (decide (i < length pipe)%nat) as [Hlt|Hge].
  - rewrite lookup_take_lt by done. destruct i as [|i].
    + by rewrite shift_valid_pipe_head by lia.
    + by rewrite shift_valid_pipe_tail by lia.
  - rewrite lookup_take_ge by lia.
    apply lookup_ge_None. rewrite shift_valid_pipe_length. lia.
Qed.

Lemma seq_logic_enabled_pipe (cfg : FFT.config) (v : bool) (s : FFT.state) :
  FFT.internal_enable s v = true ->
  FFT.valid_pipe (FFT.seq_logic cfg false v s)
  = FFT.shift_valid_pipe v (FFT.valid_pipe s).
Proof. intros He. unfold FFT.seq_logic. by rewrite He. Qed.

Lemma fft_run_snoc (cfg : FFT.config) (ins : list bool) (v : bool)
    (s : FFT.state) :
  FFT.run cfg (ins ++ [v]) s = FFT.seq_logic cfg false v (FFT.run cfg ins s).
Proof. revert s. induction ins as [|w ins IH]; intros s; simpl; [done|apply IH]. Qed.

Lemma wave_enables (j : nat) (s : FFT.state) (v : bool) :
  wave j (FFT.valid_pipe s) -> FFT.internal_enable s v = true.
Proof.
  intros [Hj _]. unfold FFT.internal_enable.
  apply orb_true_iff. right. apply any_valid_in_pipe_true. by exists j.
Qed.

Lemma wave_start (cfg : FFT.config) (s : FFT.state) (L : nat) :
  (0 < L)%nat -> FFT.valid_pipe s = replicate L false ->
  wave 0 (FFT.valid_pipe (FFT.seq_logic cfg false true s)) /\
  length (FFT.valid_pipe (FFT.seq_logic cfg false true s)) = L.
Proof.
  intros HL Hpipe.
  rewrite seq_logic_enabled_pipe by done.
  rewrite shift_valid_pipe_length, Hpipe, length_replicate.
  split; [split|done].
  - apply shift_valid_pipe_head. rewrite length_replicate. lia.
  - intros [|i] Hi; [lia|].
    destruct (decide (S i < L)%nat).
    + rewrite shift_valid_pipe_tail by (rewrite length_replicate; lia).
      intros Hl. by apply lookup_replicate_lt in Hl.
    + rewrite (proj2 (lookup_ge_None _ _)); [done|].
      rewrite shift_valid_pipe_length, length_replicate. lia.
Qed.

Lemma wave_step (cfg : FFT.config) (s : FFT.state) (v : bool) (j : nat) :
  wave j (FFT.valid_pipe s) -> (S j < length (FFT.valid_pipe s))%nat ->
  wave (S j) (FFT.valid_pipe (FFT.seq_logic cfg false v s)) /\
  length (FFT.valid_pipe (FFT.seq_logic cfg false v s))
  = length (FFT.valid_pipe s).
Proof.
  intros Hw Hlen.
  rewrite seq_logic_enabled_pipe by (by eapply wave_enables).
  rewrite shift_valid_pipe_length. destruct Hw as [Hj Hbehind].
  split; [split|done].
  - by rewrite shift_valid_pipe_tail.
  - intros [|i] Hi; [lia|].
    destruct (decide (S i < length (FFT.valid_pipe s))%nat).
    + rewrite shift_valid_pipe_tail by done. apply Hbehind. lia.
    + rewrite (proj2 (lookup_ge_None _ _)); [done|].
      rewrite shift_valid_pipe_length. lia.
Qed.

Lemma run_wave (cfg : FFT.config) (s : FFT.state) (rest : list bool)
    (L j : nat) :
  FFT.valid_pipe s = replicate L false ->
  (S j <= L)%nat -> (j <= length rest)%nat ->
  wave j (FFT.valid_pipe (FFT.run cfg (take (S j) (true :: rest)) s)) /\
  length (FFT.valid_pipe (FFT.run cfg (take (S j) (true :: rest)) s)) = L.
Proof.
  intros Hpipe. induction j as [|j IH]; intros HL Hrest.
  - change (FFT.run cfg (take 1 (true :: rest)) s)
      with (FFT.seq_logic cfg false true s).
    apply wave_start; [lia|done].
  - destruct (lookup_lt_is_Some_2 (true :: rest) (S j)) as [v Hv];
      [simpl; lia|].
    rewrite (take_S_r _ _ _ Hv), fft_run_snoc.
    destruct IH as [Hw Hlen]; [lia|lia|].
    destruct (wave_step cfg _ v j Hw) as [Hw' Hlen']; [lia|].
    split; [done|lia].
Qed.

Lemma out_valid_last (v : bool) (d : complex_t) (s : FFT.state) :
  FFT.out_valid (FFT.comb_logic false v d s)
  = default false (FFT.valid_pipe s !! pred (length (FFT.valid_pipe s))).
Proof.
  unfold FFT.comb_logic. rewrite last_lookup.
  by destruct (default false _).
Qed.

(** ** FFT: the constructor *)

Lemma stage_ctor_nonneg (n id offset : Z) :
  0 <= n ->
  Stage.ctor n id offset
  = Some (Stage.Config n (Z.quot n 2) offset,
          Stage.State 0 czero (replicate (Z.to_nat (Z.quot n 2)) czero)
                              (replicate (Z.to_nat (Z.quot n 2)) czero)).
Proof.
  intros Hn. unfold Stage.ctor.
  destruct (Z.ltb_spec (Z.quot n 2) 0) as [Hneg|_]; [|done].
  rewrite Z.quot_div_nonneg in Hneg by lia.
  pose proof (Z.div_pos n 2). lia.
Qed.

Lemma stage_latency_div (n i : Z) :
  0 <= n -> 0 <= i -> Z.quot (Z.shiftr n i) 2 = n / 2 ^ (i + 1).
Proof.
  intros Hn Hi.
  rewrite Z.shiftr_div_pow2 by done.
  assert (0 < 2 ^ i) by (apply Z.pow_pos_nonneg; lia).
  rewrite Z.quot_div_nonneg by (try apply Z.div_pos; lia).
  rewrite Z.div_div by lia.
  by rewrite Z.pow_add_r, Z.pow_1_r by lia.
Qed.

(** The loop never fails on a non-negative size; it accumulates the
    specification's sum and pushes one stage of size [n >> (i + j)] per
    iteration. *)
Lemma build_stages_spec (remaining : nat) (n i total : Z) :
  0 <= n -> 0 <= i ->
  exists sts,
    FFT.build_stages remaining n i total
    = Some (sts, total + FFT.spec_latency remaining n i) /\
    length sts = remaining /\
    forall (j : nat) st, sts !! j = Some st ->
      Stage.N_stage st = Z.shiftr n (i + Z.of_nat j) /\
      Stage.delay_len st = Z.quot (Stage.N_stage st) 2.
Proof.
  intros Hn. revert i total.
  induction remaining as [|r IH]; intros i total Hi.
  - exists []. simpl. split; [f_equal; f_equal; lia|]. split; [done|].
    intros j st Hl. by rewrite lookup_nil in Hl.
  - cbn [FFT.build_stages FFT.spec_latency].
    rewrite stage_ctor_nonneg by (apply Z.shiftr_nonneg; lia). simpl.
    destruct (IH (i + 1) (total + (Z.quot (Z.shiftr n i) 2 + 1)))
      as (sts & -> & Hlen & Hsts); [lia|]. simpl.
    eexists. split; [|split].
    + rewrite <- (stage_latency_div n i) by done. f_equal. f_equal. lia.
    + simpl. by rewrite Hlen.
    + intros [|j] st Hl; simpl in Hl.
      * injection Hl as <-. split; [|reflexivity].
        cbn [Stage.N_stage fst]. f_equal. lia.
      * destruct (Hsts j st Hl) as [Hsz Hd]. split; [|done].
        rewrite Hsz. f_equal. lia.
Qed.

Lemma fft_ctor_spec (n : Z) :
  1 <= n ->
  exists cfg,
    FFT.ctor n = Some cfg /\
    FFT.N cfg = n /\
    FFT.num_stages cfg = Z.log2 n /\
    FFT.latency_cycles cfg = FFT.spec_latency (Z.to_nat (Z.log2 n)) n 0 /\
    Z.of_nat (length (FFT.stages cfg)) = Z.log2 n /\
    forall (j : nat) st, FFT.stages cfg !! j = Some st ->
      Stage.N_stage st = Z.shiftr n (Z.of_nat j) /\
      Stage.delay_len st = Z.quot (Stage.N_stage st) 2.
Proof.
  intros Hn. unfold FFT.ctor, FFT.int_log2.
  destruct (build_stages_spec (Z.to_nat (Z.log2 n)) n 0 0)
    as (sts & -> & Hlen & Hsts); [lia|lia|].
  simpl. eexists. split; [reflexivity|]. simpl.
  repeat split; try done.
  - rewrite Hlen. pose proof (Z.log2_nonneg n). lia.
  - by destruct (Hsts j st H) as [-> _].
  - by destruct (Hsts j st H) as [_ ->].
Qed.

(** For a power of two the sum has a closed form. *)
Lemma spec_latency_pow2 (count : nat) (k i : Z) :
  0 <= i -> i + Z.of_nat count = k ->
  FFT.spec_latency count (2 ^ k) i = 2 ^ (k - i) - 1 + Z.of_nat count.
Proof.
  revert i. induction count as [|r IH]; intros i Hi Hk.
  - simpl. replace (k - i) with 0 by lia. done.
  - cbn [FFT.spec_latency]. rewrite IH by lia.
    replace (2 ^ k) with (2 ^ (k - (i + 1)) * 2 ^ (i + 1))
      by (rewrite <- Z.pow_add_r by lia; f_equal; lia).
    rewrite Z.div_mul by (apply Z.pow_nonzero; lia).
    replace (k - i) with (k - (i + 1) + 1) by lia.
    rewrite (Z.pow_add_r 2 (k - (i + 1)) 1) by lia. lia.
Qed.

Lemma build_stages_offsets (remaining : nat) (n i total : Z) sts tl :
  0 <= n -> 0 <= i -> 0 <= total ->
  FFT.build_stages remaining n i total = Some (sts, tl) ->
  forall (j : nat) st, sts !! j = Some st ->
    0 < Stage.N_stage st -> 0 <= Stage.init_offset st < Stage.N_stage st.
Proof.
  intros Hn. revert i total sts tl.
  induction remaining as [|r IH]; intros i total sts tl Hi Htotal Hbuild.
  - injection Hbuild as <- _. intros j st Hl. by rewrite lookup_nil in Hl.
  - cbn [FFT.build_stages] in Hbuild.
    rewrite stage_ctor_nonneg in Hbuild by (apply Z.shiftr_nonneg; lia).
    cbn [mbind option_bind fst] in Hbuild.
    destruct (FFT.build_stages r n (i + 1) _) as [[rest tl']|] eqn:Hrest;
      [|done].
    injection Hbuild as <- _.
    assert (0 <= Z.quot (Z.shiftr n i) 2).
    { rewrite stage_latency_div by done.
      apply Z.div_pos; [lia|]. apply Z.pow_pos_nonneg; lia. }
    intros [|j] st Hl; simpl in Hl.
    + injection Hl as <-. cbn [Stage.N_stage Stage.init_offset]. intros Hpos.
      rewrite (Z.rem_mod_nonneg total) by lia.
      pose proof (Z.mod_pos_bound total (Z.shiftr n i) Hpos).
      rewrite Z.rem_mod_nonneg by lia.
      apply Z.mod_pos_bound. lia.
    + eapply (IH (i + 1)); [| |exact Hrest|exact Hl]; lia.
Qed.

(** The stages of a power-of-two transform satisfy the size and offset
    conditions of [Stage.wf]. *)
Lemma fft_pow2_stages (k : Z) :
  1 <= k ->
  exists cfg,
    FFT.ctor (2 ^ k) = Some cfg /\
    Z.of_nat (length (FFT.stages cfg)) = k /\
    forall (j : nat) st, FFT.stages cfg !! j = Some st ->
      Stage.N_stage st = 2 ^ (k - Z.of_nat j) /\
      Stage.N_stage st = 2 * Stage.delay_len st /\
      1 <= Stage.delay_len st /\
      0 <= Stage.init_offset st < Stage.N_stage st.
Proof.
  intros Hk.
  assert (Hpow : 0 < 2 ^ k) by (apply Z.pow_pos_nonneg; lia).
  destruct (fft_ctor_spec (2 ^ k)) as (cfg & Hctor & _ & _ & _ & Hlen & Hsts);
    [lia|].
  rewrite Z.log2_pow2 in Hlen by lia.
  exists cfg. split; [done|]. split; [done|].
  intros j st Hl.
  assert (Hj : Z.of_nat j < k) by (apply lookup_lt_Some in Hl; lia).
  destruct (Hsts j st Hl) as [Hsize Hdelay].
  assert (Hsize' : Stage.N_stage st = 2 ^ (k - Z.of_nat j)).
  { rewrite Hsize, Z.shiftr_div_pow2, Z.pow_sub_r by lia. done. }
  assert (Hhalf : 2 ^ (k - Z.of_nat j) = 2 * 2 ^ (k - Z.of_nat j - 1)).
  { rewrite <- (Z.pow_succ_r 2) by lia. f_equal. lia. }
  assert (0 < 2 ^ (k - Z.of_nat j - 1)) by (apply Z.pow_pos_nonneg; lia).
  assert (Hd : Stage.delay_len st = 2 ^ (k - Z.of_nat j - 1)).
  { rewrite Hdelay, Hsize', Hhalf, Z.quot_div_nonneg by lia.
    rewrite Z.mul_comm. apply Z.div_mul. lia. }
  split; [done|]. split; [lia|]. split; [lia|].
  unfold FFT.ctor, FFT.int_log2 in Hctor.
  destruct (FFT.build_stages _ _ _ _) as [[sts tl]|] eqn:Hbuild; [|done].
  injection Hctor as <-. simpl in Hl.
  eapply (build_stages_offsets _ (2 ^ k) 0 0);
    [lia|lia|lia|exact Hbuild|exact Hl|lia].
Qed.

(** C1: for an [int] [N = 2^k], [k >= 1], the constructor's [latency_cycles] is the
    sum over the stages [i = 0 .. k-1] of [N / 2^(i+1) + 1] (that is
    [N - 1 + k]); and when the first valid sample of a block reaches a
    pipeline with nothing in flight, the next [latency_cycles] clock edges
    are all enabled, [out_valid] is low after each of the first
    [latency_cycles - 1] of them (and before the first) and high after
    the last, whatever [in_valid] does in between. *)
Theorem fft_latency_law (k : Z) :
  1 <= k -> 2 ^ k <= INT_MAX ->
  exists cfg,
    FFT.ctor (2 ^ k) = Some cfg /\
    FFT.latency_cycles cfg = FFT.spec_latency (Z.to_nat k) (2 ^ k) 0 /\
    FFT.latency_cycles cfg = 2 ^ k - 1 + k /\
    FFT.valid_pipe (FFT.initial cfg)
    = replicate (Z.to_nat (FFT.latency_cycles cfg)) false /\
    forall (s : FFT.state) (rest : list bool) (d : complex_t) (v : bool),
      let L := Z.to_nat (FFT.latency_cycles cfg) in
      let ins := true :: rest in
      FFT.valid_pipe s = replicate L false ->
      (L <= length ins)%nat ->
      (forall j, (j < L)%nat ->
         FFT.out_valid (FFT.comb_logic false v d (FFT.run cfg (take j ins) s))
         = false /\
         exists vj, ins !! j = Some vj /\
           FFT.internal_enable (FFT.run cfg (take j ins) s) vj = true) /\
      FFT.out_valid (FFT.comb_logic false v d (FFT.run cfg (take L ins) s))
      = true.
Proof.
  intros Hk _.
  assert (Hpow : 2 <= 2 ^ k).
  { change 2 with (2 ^ 1) at 1. apply Z.pow_le_mono_r; lia. }
  destruct (fft_ctor_spec (2 ^ k)) as (cfg & Hctor & _ & _ & Hlat & _); [lia|].
  rewrite Z.log2_pow2 in Hlat by lia.
  assert (Hclosed : FFT.latency_cycles cfg = 2 ^ k - 1 + k).
  { rewrite Hlat, (spec_latency_pow2 (Z.to_nat k) k 0) by lia.
    rewrite Z.sub_0_r. lia. }
  exists cfg. split; [done|]. split; [done|]. split; [done|]. split; [done|].
  intros s rest d v L ins Hpipe Hlen.
  assert (HL : (2 <= L)%nat) by (unfold L; lia).
  split.
  - intros [|j] Hj.
    + rewrite take_0. cbn [FFT.run]. split.
      * rewrite out_valid_last, Hpipe, length_replicate.
        by rewrite lookup_replicate_2 by lia.
      * by exists true.
    + destruct (run_wave cfg s rest L j Hpipe) as [Hw HlenL];
        [lia|simpl in Hlen; lia|].
      fold ins in Hw, HlenL. split.
      * rewrite out_valid_last, HlenL. destruct Hw as [_ Hbehind].
        destruct (lookup_lt_is_Some_2
                    (FFT.valid_pipe (FFT.run cfg (take (S j) ins) s))
                    (pred L)) as [b Hb]; [lia|].
        rewrite Hb. destruct b; [|done].
        exfalso. apply (Hbehind (pred L)); [lia|done].
      * destruct (lookup_lt_is_Some_2 ins (S j)) as [vj Hvj]; [lia|].
        exists vj. split; [done|]. by eapply wave_enables.
  - destruct (run_wave cfg s rest L (pred L) Hpipe) as [[Hw _] HlenL];
      [lia|simpl in Hlen; lia|].
    fold ins in Hw, HlenL.
    replace (S (pred L)) with L in Hw, HlenL by lia.
    by rewrite out_valid_last, HlenL, Hw.
Qed.

(** The 4-point transform: stages of size 4 and 2, five cycles. *)
Lemma fft_latency_law_witness :
  exists cfg,
    FFT.ctor 4 = Some cfg /\ FFT.latency_cycles cfg = 5 /\
    FFT.out_valid
      (FFT.comb_logic false false czero
         (FFT.run cfg [true; true; true; true; false] (FFT.initial cfg)))
    = true.
Proof.
  destruct (fft_latency_law 2) as (cfg & Hctor & _ & Hlat & Hinit & Hrun);
    [lia|done|].
  exists cfg. split; [exact Hctor|]. split; [exact Hlat|].
  specialize (Hrun (FFT.initial cfg) [true; true; true; false] czero false).
  rewrite Hlat in Hrun. apply Hrun.
  - rewrite Hinit, Hlat. reflexivity.
  - simpl. lia.
Defined.

(** ** DMA: unpacking *)

Lemma upper_half (raw : Z) :
  0 <= raw < 2 ^ 64 ->
  Z.land (Z.shiftr raw 32) (Z.ones 32) = raw / 2 ^ 32 /\
  0 <= raw / 2 ^ 32 < 2 ^ 32.
Proof.
  intros Hraw.
  assert (Hrange : 0 <= raw / 2 ^ 32 < 2 ^ 32).
  { split; [apply Z.div_pos; lia|].
    apply Z.div_lt_upper_bound; [lia|].
    change (2 ^ 32 * 2 ^ 32) with (2 ^ 64). lia. }
  split; [|done].
  rewrite Z.land_ones, Z.shiftr_div_pow2 by lia.
  by apply Z.mod_small.
Qed.

Lemma lower_half (raw : Z) :
  Z.land raw (Z.ones 32) = raw mod 2 ^ 32 /\ 0 <= raw mod 2 ^ 32 < 2 ^ 32.
Proof.
  split; [apply Z.land_ones; lia|apply Z.mod_pos_bound; lia].
Qed.

(** C5: with a 64-bit data bus, [fft_valid] is [read_req]; when it is set
    the sample is (upper 32 bits, lower 32 bits) of the word, each read as
    an unsigned number in [[0, 2^32)] and converted to [double]; when it
    is clear the sample is zero. *)
Theorem dma_unpack (s : DMA.state) (raw : Z) :
  0 <= raw < 2 ^ 64 ->
  let o := DMA.comb_logic 64 s raw in
  (DMA.fft_valid o = true <-> DMA.read_req s = true) /\
  (DMA.read_req s = true ->
     DMA.fft_data o = Complex (double_of_uint (raw / 2 ^ 32))
                              (double_of_uint (raw mod 2 ^ 32)) /\
     0 <= raw / 2 ^ 32 < 2 ^ 32 /\ 0 <= raw mod 2 ^ 32 < 2 ^ 32) /\
  (DMA.read_req s = false -> DMA.fft_data o = czero).
Proof.
  intros Hraw o. unfold o, DMA.comb_logic.
  destruct (upper_half raw Hraw) as [Hup Hup_range].
  destruct (lower_half raw) as [Hlo Hlo_range].
  destruct (DMA.read_req s); simpl.
  - split; [done|]. split; [|done]. intros _.
    by rewrite Hup, Hlo.
  - split; [done|]. split; [done|]. done.
Qed.

(** A word with its top bit set unpacks to a positive real part. *)
Lemma dma_unpack_witness :
  DMA.fft_data
    (DMA.comb_logic 64 (DMA.State true 0 true 1 true false 1)
       0xFFFFFFFF00000002)
  = Complex 4294967295 2.
Proof.
  destruct (dma_unpack (DMA.State true 0 true 1 true false 1)
              0xFFFFFFFF00000002) as (_ & Hset & _); [lia|].
  destruct (Hset eq_refl) as [-> _]. reflexivity.
Defined.

(** ** DMA: the control registers *)

(** Closes [b = (x <=? y)] read as [true]. *)
Ltac leb_true := symmetry; apply Z.leb_le; lia.

Lemma dma_inv_initial : dma_inv DMA.initial.
Proof. by split. Qed.

Lemma dma_inv_step (AW : Z) (i : DMA.inputs) (s : DMA.state) :
  dma_inv s -> dma_inv (DMA.seq_logic AW i s).
Proof.
  destruct s as [b ma a sc rq rw ca], i as [r st ba ns].
  unfold dma_inv, DMA.seq_logic, DMA.on_active, DMA.on_start. simpl.
  intros [-> Hidle].
  destruct r, st, a, rq, rw, (sc <? ns); simpl in *;
    try (destruct Hidle as [? ?]; [done|]); done.
Qed.

Lemma dma_inv_run (AW : Z) (ins : list DMA.inputs) (s : DMA.state) :
  dma_inv s -> dma_inv (DMA.run AW ins s).
Proof.
  revert s. induction ins as [|i ins IH]; intros s Hs; simpl; [done|].
  by apply IH, dma_inv_step.
Qed.

Lemma dma_run_snoc (AW : Z) (ins : list DMA.inputs) (i : DMA.inputs)
    (s : DMA.state) :
  DMA.run AW (ins ++ [i]) s = DMA.seq_logic AW i (DMA.run AW ins s).
Proof. revert s. induction ins as [|w ins IH]; intros s; simpl; [done|apply IH]. Qed.

Lemma transfer_phase_start (AW n : Z) (i : DMA.inputs) (s : DMA.state) :
  dma_inv s -> DMA.active s = false ->
  DMA.rst i = false -> DMA.start i = true -> 1 <= n ->
  transfer_phase n 0 (DMA.seq_logic AW i s).
Proof.
  intros [_ Hidle] Hact Hrst Hstart Hn.
  destruct (Hidle Hact) as [Hreq Hwait].
  unfold transfer_phase, DMA.seq_logic. rewrite Hrst, Hstart, Hact. simpl.
  rewrite Hwait.
  repeat split; try done.
  - leb_true.
  - leb_true.
  - lia.
  - leb_true.
Qed.

Lemma transfer_phase_step (AW n j : Z) (i : DMA.inputs) (s : DMA.state) :
  transfer_phase n j s -> 0 <= j <= n + 1 -> 1 <= n ->
  DMA.rst i = false -> DMA.num_samples i = n ->
  transfer_phase n (j + 1) (DMA.seq_logic AW i s).
Proof.
  destruct s as [b ma a sc rq rw ca], i as [r st ba ns].
  unfold transfer_phase. simpl.
  intros (-> & -> & -> & -> & ->) Hj Hn -> ->.
  unfold DMA.seq_logic, DMA.on_active, DMA.on_start. simpl.
  destruct (Z.leb_spec j (n + 1)) as [_|]; [|lia].
  rewrite andb_false_r. simpl.
  destruct (Z.ltb_spec (Z.min (j + 1) n) n) as [Hissue|Hdone]; simpl.
  - repeat split.
    + leb_true.
    + leb_true.
    + lia.
    + destruct (Z.leb_spec j (n - 1)), (Z.leb_spec 1 (j + 1)),
        (Z.leb_spec (j + 1) n); simpl; try done; lia.
    + leb_true.
  - destruct (Z.leb_spec 1 j), (Z.leb_spec j n), (Z.leb_spec j (n - 1));
      simpl; try lia;
      destruct (Z.leb_spec (j + 1) (n + 1)), (Z.leb_spec 1 (j + 1)),
        (Z.leb_spec (j + 1) n), (Z.leb_spec (j + 1) (n - 1));
      simpl; repeat split; try done; lia.
Qed.

Lemma transfer_phase_run (AW n : Z) (i0 : DMA.inputs) (ins : list DMA.inputs)
    (s0 : DMA.state) (j : nat) :
  dma_inv s0 -> DMA.active s0 = false ->
  DMA.rst i0 = false -> DMA.start i0 = true -> 1 <= n ->
  Forall (fun i => DMA.rst i = false /\ DMA.num_samples i = n) ins ->
  Z.of_nat j <= n + 2 -> (j <= length ins)%nat ->
  transfer_phase n (Z.of_nat j) (DMA.run AW (i0 :: take j ins) s0).
Proof.
  intros Hinv Hact Hrst Hstart Hn Hins.
  induction j as [|j IH]; intros Hj Hlen.
  - rewrite take_0. by apply transfer_phase_start.
  - destruct (lookup_lt_is_Some_2 ins j) as [i Hi]; [lia|].
    rewrite (take_S_r _ _ _ Hi), app_comm_cons, dma_run_snoc.
    destruct (proj1 (Forall_lookup _ _) Hins j i Hi) as [Hirst Hin].
    replace (Z.of_nat (S j)) with (Z.of_nat j + 1) by lia.
    apply transfer_phase_step; try done; try lia.
    apply IH; lia.
Qed.

Lemma busy_kept (AW : Z) (i : DMA.inputs) (s : DMA.state) :
  DMA.rst i = false -> DMA.busy s = true ->
  DMA.read_req s = true \/ DMA.read_wait s = true ->
  DMA.busy (DMA.seq_logic AW i s) = true.
Proof.
  destruct s as [b ma a sc rq rw ca], i as [r st ba ns]. simpl.
  intros -> -> Hout.
  unfold DMA.seq_logic, DMA.on_active, DMA.on_start. simpl.
  destruct st, a, rq, rw, (sc <? ns); simpl; try done; by destruct Hout.
Qed.

(** C4: after a start is accepted by an idle DMA for a transfer of
    [n >= 1] samples, [busy] is high after that edge and after each of the
    next [n + 1] edges, while reads are issued on the first [n] of these
    edges and their data is captured one cycle later, the last on cycle
    [n]; [busy] falls on edge [n + 2].  In every reachable state a pending
    request ([read_req] or [read_wait]) implies [busy], and no edge without
    reset takes [busy] from high to low while a request is pending. *)
Theorem dma_busy_until_captured (AW n : Z) (pre ins : list DMA.inputs)
    (i0 : DMA.inputs) :
  let s0 := DMA.run AW pre DMA.initial in
  DMA.active s0 = false ->
  DMA.rst i0 = false -> DMA.start i0 = true -> 1 <= n ->
  Forall (fun i => DMA.rst i = false /\ DMA.num_samples i = n) ins ->
  (forall j : nat, Z.of_nat j <= n + 2 -> (j <= length ins)%nat ->
     let s := DMA.run AW (i0 :: take j ins) s0 in
     (DMA.busy s = true <-> Z.of_nat j <= n + 1) /\
     (DMA.read_wait s = true <-> Z.of_nat j <= n - 1) /\
     (DMA.read_req s = true <-> 1 <= Z.of_nat j <= n)) /\
  (forall (any : list DMA.inputs) (i : DMA.inputs),
     let s := DMA.run AW any DMA.initial in
     (DMA.read_req s = true \/ DMA.read_wait s = true -> DMA.busy s = true) /\
     (DMA.rst i = false -> DMA.busy s = true ->
      DMA.read_req s = true \/ DMA.read_wait s = true ->
      DMA.busy (DMA.seq_logic AW i s) = true)).
Proof.
  intros s0 Hact Hrst Hstart Hn Hins. split.
  - intros j Hj Hlen s.
    destruct (transfer_phase_run AW n i0 ins s0 j) as (Hb & _ & _ & Hrq & Hrw);
      try done.
    { apply dma_inv_run, dma_inv_initial. }
    fold s in Hb, Hrq, Hrw. rewrite Hb, Hrq, Hrw.
    rewrite andb_true_iff, !Z.leb_le. done.
  - intros any i s. split; [|apply busy_kept].
    destruct (dma_inv_run AW any DMA.initial dma_inv_initial) as [Hb Hidle].
    fold s in Hb, Hidle. rewrite Hb.
    destruct (DMA.active s); [done|].
    destruct Hidle as [-> ->]; [done|]. by intros [|].
Qed.

(** The transfer of the DMA testbench: 8 samples from address 1. *)
Lemma dma_busy_until_captured_witness :
  let ins := replicate 10 (DMA.Inputs false false 1 8) in
  DMA.busy (DMA.run 12 (DMA.Inputs false true 1 8 :: take 9 ins) DMA.initial)
  = true /\
  DMA.busy (DMA.run 12 (DMA.Inputs false true 1 8 :: take 10 ins) DMA.initial)
  = false.
Proof.
  intros ins.
  destruct (dma_busy_until_captured 12 8 [] ins (DMA.Inputs false true 1 8))
    as [Hrun _]; [reflexivity|reflexivity|reflexivity|lia| |].
  { apply Forall_replicate. by split. }
  split.
  - apply (Hrun 9%nat); [lia|simpl; lia|lia].
  - destruct (DMA.busy _) eqn:Hb; [|done].
    apply (Hrun 10%nat) in Hb; [lia|lia|simpl; lia].
Defined.

(** C10: a start accepted by an idle DMA while [num_samples <= 1] (zero
    and negative values included) still runs a one-sample transfer.  With
    [sd j] the DMA and memory output after [j] edges, the accepting edge
    being the first: that edge issues the only read, at [base_addr]; the
    next edge captures the word the memory returns for that address and
    gives the only [fft_valid] pulse, carrying the unpacked sample; [busy]
    stays high until the fourth edge clears it. *)
Theorem dma_short_transfer (AW MS : Z) (mem : list Z)
    (pre : list DMA.inputs) (d0 : Z) (i0 i1 i2 i3 : DMA.inputs) :
  let s0 := DMA.run AW pre DMA.initial in
  DMA.active s0 = false ->
  DMA.rst i0 = false -> DMA.start i0 = true ->
  DMA.rst i1 = false -> DMA.num_samples i1 <= 1 ->
  DMA.rst i2 = false -> DMA.num_samples i2 <= 1 ->
  DMA.rst i3 = false -> DMA.num_samples i3 <= 1 ->
  let sd j := DMA.system_run AW MS mem (take j [i0; i1; i2; i3]) (s0, d0) in
  let out j := DMA.comb_logic 64 (sd j).1 (sd j).2 in
  DMA.fft_valid (out 0%nat) = false /\
  (DMA.busy (sd 1%nat).1 = true /\ DMA.read_wait (sd 1%nat).1 = true /\
   DMA.mem_addr (sd 1%nat).1 = DMA.base_addr i0 /\
   DMA.fft_valid (out 1%nat) = false) /\
  (DMA.busy (sd 2%nat).1 = true /\ DMA.read_wait (sd 2%nat).1 = false /\
   DMA.mem_addr (sd 2%nat).1 = DMA.base_addr i0 /\
   (sd 2%nat).2 = Memory.read MS false mem (DMA.base_addr i0) /\
   DMA.fft_valid (out 2%nat) = true /\
   forall w, 0 <= DMA.base_addr i0 < MS ->
     mem !! Z.to_nat (DMA.base_addr i0) = Some w -> 0 <= w < 2 ^ 64 ->
     DMA.fft_data (out 2%nat)
     = Complex (double_of_uint (w / 2 ^ 32)) (double_of_uint (w mod 2 ^ 32))) /\
  (DMA.busy (sd 3%nat).1 = true /\ DMA.read_wait (sd 3%nat).1 = false /\
   DMA.fft_valid (out 3%nat) = false) /\
  (DMA.busy (sd 4%nat).1 = false /\ DMA.active (sd 4%nat).1 = false /\
   DMA.read_wait (sd 4%nat).1 = false /\
   DMA.fft_valid (out 4%nat) = false).
Proof.
  intros s0 Hact Hr0 Hst0 Hr1 Hn1 Hr2 Hn2 Hr3 Hn3 sd out.
  destruct (dma_inv_run AW pre DMA.initial dma_inv_initial) as [_ Hidle].
  fold s0 in Hidle. destruct (Hidle Hact) as [Hreq Hwait].
  unfold out, sd. clear out sd Hidle.
  generalize dependent s0. intros s0.
  destruct s0 as [b ma a sc rq rw ca],
    i0 as [r0 st0 ba0 ns0], i1 as [r1 st1 ba1 ns1],
    i2 as [r2 st2 ba2 ns2], i3 as [r3 st3 ba3 ns3].
  simpl in *. intros -> -> ->. subst r0 st0 r1 r2 r3.
  unfold DMA.system_edge, DMA.seq_logic, DMA.on_active, DMA.on_start,
    DMA.comb_logic. simpl.
  apply Z.ltb_ge in Hn1, Hn2, Hn3.
  repeat (first [rewrite Hn1 | rewrite Hn2 | rewrite Hn3
                | rewrite andb_false_r]; simpl).
  repeat split; try done.
  intros w [Hlo Hhi] Hw Hrange. unfold Memory.read. simpl.
  destruct (Z.ltb_spec ba0 MS) as [_|]; [|lia].
  rewrite Hw. simpl.
  destruct (upper_half w Hrange) as [-> _].
  destruct (lower_half w) as [-> _]. done.
Qed.

(** A zero-length request against the memory of the DMA testbench. *)
Lemma dma_short_transfer_witness :
  let mem := map (fun i => (i + 5) * 2 ^ 32 + i * 2) (seqZ 0 16) in
  let idle := DMA.Inputs false false 3 0 in
  DMA.fft_valid
    (DMA.comb_logic 64
       (DMA.system_run 12 16 mem [DMA.Inputs false true 3 0; idle]
          (DMA.initial, 0)).1
       (DMA.system_run 12 16 mem [DMA.Inputs false true 3 0; idle]
          (DMA.initial, 0)).2)
  = true.
Proof.
  intros mem idle.
  destruct (dma_short_transfer 12 16 mem [] 0
              (DMA.Inputs false true 3 0) idle idle idle)
    as (_ & _ & (_ & _ & _ & _ & Hvalid & _) & _);
    [reflexivity|reflexivity|reflexivity|reflexivity|simpl; lia
    |reflexivity|simpl; lia|reflexivity|simpl; lia|].
  exact Hvalid.
Defined.

(** ** InterleavedFFT: the stagger scheduler *)

Lemma pulse_starts_length (hop cnt : Z) (starts : list bool) :
  length (InterleavedFFT.pulse_starts hop cnt starts) = length starts.
Proof. apply length_imap. Qed.

Lemma pulse_starts_lookup (hop cnt : Z) (starts : list bool) (i : nat) :
  (i < length starts)%nat ->
  InterleavedFFT.pulse_starts hop cnt starts !! i
  = Some (cnt =? Z.of_nat i * hop).
Proof.
  intros Hi. unfold InterleavedFFT.pulse_starts. rewrite list_lookup_imap.
  by destruct (lookup_lt_is_Some_2 starts i Hi) as [x ->].
Qed.

Lemma stagger_run_snoc (c h : Z) (starts : list bool) (v : bool)
    (s : InterleavedFFT.state) :
  InterleavedFFT.run c h (starts ++ [v]) s
  = InterleavedFFT.control_logic c h false v (InterleavedFFT.run c h starts s).
Proof.
  revert s. induction starts as [|w starts IH]; intros s; simpl; [done|apply IH].
Qed.

Lemma stagger_phase_start (c h : Z) (s : InterleavedFFT.state) :
  0 <= c -> 0 <= h ->
  InterleavedFFT.active_stagger s = false ->
  Z.of_nat (length (InterleavedFFT.dma_starts s)) = c ->
  InterleavedFFT.cnt_at true s = 0 /\
  stagger_phase c h 0 (InterleavedFFT.control_logic c h false true s).
Proof.
  intros Hc Hh Hidle Hlen.
  unfold stagger_phase, InterleavedFFT.control_logic,
    InterleavedFFT.is_active_at, InterleavedFFT.cnt_at.
  rewrite Hidle. simpl.
  destruct (Z.ltb_spec (c * h + 2) 0) as [|_]; [nia|].
  split; [done|]. split; [|split; [done|split]].
  - symmetry. apply Z.leb_le. nia.
  - by rewrite pulse_starts_length.
  - intros i Hi. apply pulse_starts_lookup. lia.
Qed.

Lemma stagger_phase_step (c h j : Z) (v : bool) (s : InterleavedFFT.state) :
  stagger_phase c h j s -> j <= c * h + 2 ->
  InterleavedFFT.cnt_at v s = j + 1 /\
  stagger_phase c h (j + 1) (InterleavedFFT.control_logic c h false v s).
Proof.
  intros (Hact & Hcnt & Hlen & _) Hj.
  apply Z.leb_le in Hj. rewrite Hj in Hact.
  unfold stagger_phase, InterleavedFFT.control_logic,
    InterleavedFFT.is_active_at, InterleavedFFT.cnt_at.
  rewrite Hact, Hcnt, andb_false_r. simpl.
  split; [done|]. split; [|split; [done|split]].
  - destruct (Z.ltb_spec (c * h + 2) (j + 1)), (Z.leb_spec (j + 1) (c * h + 2));
      try done; lia.
  - by rewrite pulse_starts_length.
  - intros i Hi. apply pulse_starts_lookup. lia.
Qed.

Lemma stagger_phase_run (c h : Z) (s0 : InterleavedFFT.state)
    (rest : list bool) (j : nat) :
  0 <= c -> 0 <= h ->
  InterleavedFFT.active_stagger s0 = false ->
  Z.of_nat (length (InterleavedFFT.dma_starts s0)) = c ->
  Z.of_nat j <= c * h + 3 -> (j <= length rest)%nat ->
  (exists v, (true :: rest) !! j = Some v /\
     InterleavedFFT.cnt_at v
       (InterleavedFFT.run c h (take j (true :: rest)) s0) = Z.of_nat j) /\
  stagger_phase c h (Z.of_nat j)
    (InterleavedFFT.run c h (take (S j) (true :: rest)) s0).
Proof.
  intros Hc Hh Hidle Hlen. induction j as [|j IH]; intros Hj Hrest.
  - change (InterleavedFFT.run c h (take 1 (true :: rest)) s0)
      with (InterleavedFFT.control_logic c h false true s0).
    rewrite take_0.
    destruct (stagger_phase_start c h s0) as [Hcnt Hph]; try done.
    split; [|done]. by exists true.
  - destruct (lookup_lt_is_Some_2 (true :: rest) (S j)) as [v Hv];
      [simpl; lia|].
    rewrite (take_S_r _ (S j) _ Hv), stagger_run_snoc.
    destruct IH as [_ Hph]; [lia|lia|].
    destruct (stagger_phase_step c h (Z.of_nat j) v _ Hph) as [Hcnt Hph'];
      [lia|].
    replace (Z.of_nat (S j)) with (Z.of_nat j + 1) by lia.
    split; [|done]. by exists v.
Qed.

Lemma stagger_idle_no_pulse (c h : Z) (s : InterleavedFFT.state) (i : nat)
    (b : bool) :
  InterleavedFFT.active_stagger s = false ->
  InterleavedFFT.dma_starts (InterleavedFFT.control_logic c h false false s) !! i
  = Some b -> b = false.
Proof.
  intros Hidle. unfold InterleavedFFT.control_logic,
    InterleavedFFT.is_active_at. rewrite Hidle. simpl.
  apply lookup_replicate_lt.
Qed.

(** C3: let a global start be accepted by an idle scheduler with
    [NUM_CORES = c] and [HOP_SIZE = h >= 0], and number the clock edges
    from that one (edge 0).  On every edge [j <= c*h + 3] the counter the
    edge works with is [j] (it leaves [j + 1] in the register), and
    [dma_starts[i]] is written high exactly when [j = i*h], for every core
    [i < c], whatever [start] does meanwhile.  Every [i*h] lies inside that window, so core [i] gets one
    pulse, [i*h] cycles after core 0; the scheduler is idle after edge
    [c*h + 3], and an idle scheduler that sees no start writes every
    [dma_starts[i]] low. *)
Theorem stagger_pulses (c h : Z) (s0 : InterleavedFFT.state)
    (rest : list bool) :
  0 <= c -> 0 <= h -> c * h + 4 <= INT_MAX ->
  InterleavedFFT.active_stagger s0 = false ->
  Z.of_nat (length (InterleavedFFT.dma_starts s0)) = c ->
  let ins := true :: rest in
  let before j := InterleavedFFT.run c h (take j ins) s0 in
  let after j := InterleavedFFT.run c h (take (S j) ins) s0 in
  let pulse i j := InterleavedFFT.dma_starts (after j) !! i = Some true in
  let in_window (j : nat) := Z.of_nat j <= c * h + 3 /\ (j <= length rest)%nat in
  (forall j, in_window j ->
     (exists v, ins !! j = Some v /\
        InterleavedFFT.cnt_at v (before j) = Z.of_nat j) /\
     InterleavedFFT.stagger_counter (after j) = Z.of_nat j + 1 /\
     (InterleavedFFT.active_stagger (after j) = true
      <-> Z.of_nat j <= c * h + 2) /\
     forall i : nat, Z.of_nat i < c ->
       is_Some (InterleavedFFT.dma_starts (after j) !! i) /\
       (pulse i j <-> Z.of_nat j = Z.of_nat i * h)) /\
  (forall i : nat, Z.of_nat i < c -> 0 <= Z.of_nat i * h <= c * h + 3) /\
  (forall i j j', Z.of_nat i < c -> in_window j -> in_window j' ->
     pulse i j -> pulse i j' -> j = j') /\
  (forall i j j0, Z.of_nat i < c -> in_window j -> in_window j0 ->
     pulse i j -> pulse 0%nat j0 ->
     Z.of_nat j = Z.of_nat j0 + Z.of_nat i * h) /\
  (forall s i b, InterleavedFFT.active_stagger s = false ->
     InterleavedFFT.dma_starts
       (InterleavedFFT.control_logic c h false false s) !! i = Some b ->
     b = false).
Proof.
  intros Hc Hh _ Hidle Hlen ins before after pulse in_window.
  assert (Hpulse : forall i j, Z.of_nat i < c -> in_window j ->
            is_Some (InterleavedFFT.dma_starts (after j) !! i) /\
            (pulse i j <-> Z.of_nat j = Z.of_nat i * h)).
  { intros i j Hi [Hj Hrest].
    destruct (stagger_phase_run c h s0 rest j) as [_ (_ & _ & _ & Hst)];
      try done.
    unfold pulse, after, ins. rewrite (Hst i Hi). split; [done|].
    destruct (Z.eqb_spec (Z.of_nat j) (Z.of_nat i * h)); split;
      try done; congruence. }
  split; [|split; [|split; [|split]]].
  - intros j [Hj Hrest].
    destruct (stagger_phase_run c h s0 rest j) as [Hcnt (Hact & Hreg & _)];
      try done.
    split; [done|]. split; [done|]. split.
    + unfold after, ins. rewrite Hact. apply Z.leb_le.
    + intros i Hi. by apply Hpulse.
  - intros i Hi. nia.
  - intros i j j' Hi Hj Hj' Hp Hp'.
    apply (Hpulse i j Hi Hj) in Hp. apply (Hpulse i j' Hi Hj') in Hp'. lia.
  - intros i j j0 Hi Hj Hj0 Hp Hp0.
    apply (Hpulse i j Hi Hj) in Hp.
    apply (Hpulse 0%nat j0) in Hp0; [lia|lia|done].
  - intros s i b. apply stagger_idle_no_pulse.
Qed.

(** Two cores, hop 3: core 1 is started on edge 3. *)
Lemma stagger_pulses_witness :
  InterleavedFFT.dma_starts
    (InterleavedFFT.run 2 3 [true; false; true; false]
       (InterleavedFFT.initial 2)) !! 1%nat
  = Some true.
Proof.
  destruct (stagger_pulses 2 3 (InterleavedFFT.initial 2) [false; true; false])
    as [Hwin _]; [lia|lia|done|reflexivity|reflexivity|].
  destruct (Hwin 3%nat) as (_ & _ & _ & Hcore); [simpl; lia|].
  destruct (Hcore 1%nat) as [_ Hiff]; [lia|].
  apply Hiff. reflexivity.
Defined.

(** ** Start pulses that arrive too early *)

(** C9: while the DMA is active, and while the scheduler is staggering,
    the clock edge computes the same registers whether [start] is high or
    low; neither module has an error output. *)
Theorem start_ignored_while_running (AW c h : Z) (r : bool) (b n : Z)
    (sd : DMA.state) (si : InterleavedFFT.state) :
  (DMA.active sd = true ->
   DMA.seq_logic AW (DMA.Inputs r true b n) sd
   = DMA.seq_logic AW (DMA.Inputs r false b n) sd) /\
  (InterleavedFFT.active_stagger si = true ->
   InterleavedFFT.control_logic c h r true si
   = InterleavedFFT.control_logic c h r false si).
Proof.
  split.
  - intros Hact. unfold DMA.seq_logic. simpl. by rewrite Hact.
  - intros Hact. unfold InterleavedFFT.control_logic,
      InterleavedFFT.is_active_at, InterleavedFFT.cnt_at.
    by rewrite Hact.
Qed.

(** A start in the middle of a 4-sample transfer and of a 2-core stagger
    sequence. *)
Lemma start_ignored_while_running_witness :
  DMA.seq_logic 12 (DMA.Inputs false true 9 4)
    (DMA.State true 1 true 2 true true 2)
  = DMA.seq_logic 12 (DMA.Inputs false false 9 4)
      (DMA.State true 1 true 2 true true 2) /\
  InterleavedFFT.control_logic 2 1 false true
    (InterleavedFFT.State true 1 [true; false])
  = InterleavedFFT.control_logic 2 1 false false
      (InterleavedFFT.State true 1 [true; false]).
Proof.
  destruct (start_ignored_while_running 12 2 1 false 9 4
              (DMA.State true 1 true 2 true true 2)
              (InterleavedFFT.State true 1 [true; false])) as [Hd Hs].
  split; [apply Hd|apply Hs]; reflexivity.
Defined.

(** ** Construction with a malformed size *)

Lemma six_not_power_of_two : ~ power_of_two 6.
Proof.
  intros (k & Hk & Heq).
  destruct (Z.lt_ge_cases k 3) as [Hlt|Hge].
  - assert (k = 0 \/ k = 1 \/ k = 2) as [-> | [-> | ->]] by lia; discriminate.
  - pose proof (Z.pow_le_mono_r 2 3 k). change (2 ^ 3) with 8 in *. lia.
Qed.

Lemma three_not_power_of_two : ~ power_of_two 3.
Proof.
  intros (k & Hk & Heq).
  destruct (Z.lt_ge_cases k 2) as [Hlt|Hge].
  - assert (k = 0 \/ k = 1) as [-> | ->] by lia; discriminate.
  - pose proof (Z.pow_le_mono_r 2 2 k). change (2 ^ 2) with 4 in *. lia.
Qed.

(** C8 fails as stated: the constructors do not reject a malformed size.
    A 6-point FFT is built with two stages (of sizes 6 and 3), a 1-point
    FFT with none, and a 3-point stage with one-sample buffers. *)
Lemma ctor_accepts_malformed_size :
  ~ well_formed_size 6 /\
  FFT.ctor 6
  = Some (FFT.Config 6 2 6 [Stage.Config 6 3 0; Stage.Config 3 1 2]) /\
  ~ well_formed_size 1 /\
  FFT.ctor 1 = Some (FFT.Config 1 0 0 []) /\
  ~ well_formed_size 3 /\
  Stage.ctor 3 1 2
  = Some (Stage.Config 3 1 2, Stage.State 0 czero [czero] [czero]) /\
  ~ rejects_malformed_sizes.
Proof.
  assert (H6 : ~ well_formed_size 6)
    by (intros [_ Hpow]; by apply six_not_power_of_two).
  repeat split; try done.
  - intros [Hlt _]. lia.
  - intros [_ Hpow]. by apply three_not_power_of_two.
  - intros Hrej. destruct (Hrej 6 H6) as [Hfft _]. discriminate Hfft.
Qed.

(** C8, as the code has it: no constructor checks the size.  For every
    [N >= 1], power of two or not, the FFT constructor succeeds with
    [floor(log2 N)] stages, stage [j] of size [N >> j] with
    [delay_len = size / 2], and the latency summed over those stages;
    for every size [n >= 0] the Stage constructor succeeds with
    [delay_len = n / 2] and buffers of that length. *)
Theorem ctor_no_validation (n id offset : Z) :
  (1 <= n ->
   exists cfg,
     FFT.ctor n = Some cfg /\
     FFT.N cfg = n /\
     FFT.num_stages cfg = Z.log2 n /\
     FFT.latency_cycles cfg = FFT.spec_latency (Z.to_nat (Z.log2 n)) n 0 /\
     Z.of_nat (length (FFT.stages cfg)) = Z.log2 n /\
     forall (j : nat) st, FFT.stages cfg !! j = Some st ->
       Stage.N_stage st = Z.shiftr n (Z.of_nat j) /\
       Stage.delay_len st = Z.quot (Stage.N_stage st) 2) /\
  (0 <= n ->
   exists cfg s,
     Stage.ctor n id offset = Some (cfg, s) /\
     Stage.N_stage cfg = n /\ Stage.delay_len cfg = n / 2 /\
     Stage.init_offset cfg = offset /\
     Z.of_nat (length (Stage.buf_in s)) = n / 2 /\
     Z.of_nat (length (Stage.buf_out s)) = n / 2).
Proof.
  split.
  - apply fft_ctor_spec.
  - intros Hn. rewrite stage_ctor_nonneg by done.
    do 2 eexists. split; [reflexivity|]. simpl.
    rewrite length_replicate, Z.quot_div_nonneg by lia.
    pose proof (Z.div_pos n 2). repeat split; lia.
Qed.

(** The sizes 6 and 3. *)
Lemma ctor_no_validation_witness :
  (exists cfg, FFT.ctor 6 = Some cfg /\ FFT.num_stages cfg = 2) /\
  (exists cfg s, Stage.ctor 3 1 2 = Some (cfg, s) /\ Stage.delay_len cfg = 1).
Proof.
  destruct (ctor_no_validation 6 0 0) as [Hfft _].
  destruct (ctor_no_validation 3 1 2) as [_ Hstage].
  split.
  - destruct Hfft as (cfg & Hc & _ & Hns & _); [lia|].
    exists cfg. split; [exact Hc|exact Hns].
  - destruct Hstage as (cfg & s & Hc & _ & Hd & _); [lia|].
    exists cfg, s. split; [exact Hc|exact Hd].
Defined.

(** ** Worked examples *)

(** The first transfer of the DMA testbench: word [i] of the memory is
    [(i + 5) << 32 | (i * 2)], [base_addr = 1], [num_samples = 8].  The
    samples delivered with [fft_valid], in order. *)
Example dma_testbench_transfer :
  let mem := map (fun i => (i + 5) * 2 ^ 32 + i * 2) (seqZ 0 16) in
  let ins := DMA.Inputs false true 1 8
             :: replicate 11 (DMA.Inputs false false 1 8) in
  let outs :=
    map (fun j =>
           let sd := DMA.system_run 12 16 mem (take j ins) (DMA.initial, 0) in
           DMA.comb_logic 64 sd.1 sd.2)
        (seq 0 13) in
  map DMA.fft_data (filter (fun o => DMA.fft_valid o = true) outs)
  = map (fun a => Complex (double_of_uint (a + 5)) (double_of_uint (a * 2)))
        (seqZ 1 8).
Proof. vm_compute. reflexivity. Qed.

(** The 8-point transform: three stages, offsets 0, 3 and 0, latency 10. *)
Example fft8_configuration :
  FFT.ctor 8
  = Some (FFT.Config 8 3 10
            [Stage.Config 8 4 0; Stage.Config 4 2 3; Stage.Config 2 1 0]).
Proof. reflexivity. Qed.

(** Main's configuration: two cores, hop 1.  The [dma_starts] vectors
    after each of the first four edges of a stagger sequence. *)
Example stagger_two_cores :
  map (fun j =>
         InterleavedFFT.dma_starts
           (InterleavedFFT.run 2 1 (take j [true; false; false; false])
              (InterleavedFFT.initial 2)))
      [1; 2; 3; 4]%nat
  = [[true; false]; [false; true]; [false; false]; [false; false]].
Proof. reflexivity. Qed.

(** * Further properties *)

(** ** Stage: runs *)

Section stage_run_properties.
Context `{Libm}.

(** Any edge of a well-formed stage stays inside the buffers and leaves a
    well-formed stage. *)
Lemma process_wf (cfg : Stage.config) (rst enable sync : bool)
    (input : complex_t) (s : Stage.state) :
  Stage.wf cfg s ->
  exists s', Stage.process cfg rst enable sync input s = Some s' /\
             Stage.wf cfg s'.
Proof.
  intros Hwf. destruct rst.
  - eexists. split; [reflexivity|].
    destruct Hwf. constructor; simpl; rewrite ?length_vec_fill; lia.
  - destruct enable; [|by exists s].
    pose proof (synced_cnt_range cfg sync s Hwf) as Hc.
    pose proof (synced_buf_in_length sync s) as Hbi.
    pose proof (synced_buf_out_length sync s) as Hbo.
    pose proof (process_phase1 cfg s sync input Hwf) as Hp1.
    pose proof (process_phase2 cfg s sync input Hwf) as Hp2.
    cbv zeta in Hp1, Hp2. destruct Hwf.
    assert (0 <= (Stage.synced_cnt cfg sync s + 1) mod Stage.N_stage cfg
            < Stage.N_stage cfg) by (apply Z.mod_pos_bound; lia).
    destruct (Z.lt_ge_cases (Stage.synced_cnt cfg sync s) (Stage.delay_len cfg))
      as [Hlt|Hge].
    + destruct (Hp1 Hlt) as (o & _ & ->). eexists. split; [reflexivity|].
      constructor; simpl; rewrite ?length_insert; lia.
    + destruct (Hp2 Hge) as (a & _ & ->). eexists. split; [reflexivity|].
      constructor; simpl; rewrite ?length_insert; lia.
Qed.

(** X1: a well-formed stage never leaves its buffers: whatever [rst],
    [enable], [sync] and the input do on each edge, every edge of the run
    is defined and the stage stays well-formed (counter in
    [[0, N_stage)], buffers of [delay_len] samples). *)
Theorem stage_run_in_bounds (cfg : Stage.config) (es : list stage_edge)
    (s : Stage.state) :
  Stage.wf cfg s ->
  exists s', stage_run cfg es s = Some s' /\ Stage.wf cfg s'.
Proof.
  revert s. induction es as [|e es IH]; intros s Hwf.
  - by exists s.
  - destruct (process_wf cfg (se_rst e) (se_enable e) (se_sync e)
                (se_input e) s Hwf) as (s1 & Hs1 & Hwf1).
    destruct (IH s1 Hwf1) as (s' & Hs' & Hwf').
    exists s'. split; [|done]. simpl. rewrite Hs1. exact Hs'.
Qed.

(** One enabled edge without sync, as an equation on the registers. *)
Lemma process_step (cfg : Stage.config) (x : complex_t) (s : Stage.state) :
  Stage.wf cfg s ->
  exists s', Stage.process cfg false true false x s = Some s' /\
    Stage.wf cfg s' /\
    Stage.cnt s' = (Stage.cnt s + 1) mod Stage.N_stage cfg.
Proof.
  intros Hwf.
  destruct (process_wf cfg false true false x s Hwf) as (s' & Hs' & Hwf').
  exists s'. split; [done|]. split; [done|].
  pose proof (process_phase1 cfg s false x Hwf) as Hp1.
  pose proof (process_phase2 cfg s false x Hwf) as Hp2.
  cbv zeta in Hp1, Hp2. cbn [Stage.synced_cnt] in Hp1, Hp2.
  destruct (Z.lt_ge_cases (Stage.cnt s) (Stage.delay_len cfg)) as [Hlt|Hge].
  - destruct (Hp1 Hlt) as (o & _ & Heq). rewrite Heq in Hs'.
    by injection Hs' as <-.
  - destruct (Hp2 Hge) as (a & _ & Heq). rewrite Heq in Hs'.
    by injection Hs' as <-.
Qed.

(** X2: the counter counts enabled edges modulo [N_stage]: after [m]
    enabled edges without sync it has advanced by [m], so it is back where
    it was after a whole period. *)
Theorem stage_counter_period (cfg : Stage.config) (xs : list complex_t)
    (s : Stage.state) :
  Stage.wf cfg s ->
  exists outs s',
    stage_feed cfg xs s = Some (outs, s') /\
    length outs = length xs /\
    Stage.cnt s'
    = (Stage.cnt s + Z.of_nat (length xs)) mod Stage.N_stage cfg /\
    (Z.of_nat (length xs) = Stage.N_stage cfg -> Stage.cnt s' = Stage.cnt s).
Proof.
  intros Hwf.
  assert (Hmain : exists outs s',
    stage_feed cfg xs s = Some (outs, s') /\ length outs = length xs /\
    Stage.cnt s'
    = (Stage.cnt s + Z.of_nat (length xs)) mod Stage.N_stage cfg).
  { revert s Hwf. induction xs as [|x xs IH]; intros s Hwf.
    - exists [], s. split; [done|]. split; [done|].
      simpl. rewrite Z.add_0_r. destruct Hwf. by rewrite Z.mod_small.
    - destruct (process_step cfg x s Hwf) as (s1 & Hs1 & Hwf1 & Hcnt1).
      destruct (IH s1 Hwf1) as (outs & s' & Hfeed & Hlen & Hcnt).
      exists (Stage.out_data s1 :: outs), s'.
      cbn [stage_feed]. rewrite Hs1. cbn [mbind option_bind].
      rewrite Hfeed. split; [done|]. split; [simpl; by rewrite Hlen|].
      rewrite Hcnt, Hcnt1, Zplus_mod_idemp_l. f_equal.
      rewrite length_cons. lia. }
  destruct Hmain as (outs & s' & Hfeed & Hlen & Hcnt).
  exists outs, s'. repeat split; try done.
  intros Hper. rewrite Hcnt, Hper. destruct Hwf.
  rewrite <- (Z.mul_1_l (Stage.N_stage cfg)) at 1.
  rewrite Z.mod_add by lia. by apply Z.mod_small.
Qed.

End stage_run_properties.

(** A 4-point stage clocked for a whole period from counter 3. *)
Lemma stage_counter_period_witness :
  exists outs s',
    stage_feed (H := poly_libm) (Stage.Config 4 2 0)
      [czero; czero; czero; czero]
      (Stage.State 3 czero [czero; czero] [czero; czero]) = Some (outs, s') /\
    Stage.cnt s' = 3.
Proof.
  destruct (stage_counter_period (H := poly_libm) (Stage.Config 4 2 0)
              [czero; czero; czero; czero]
              (Stage.State 3 czero [czero; czero] [czero; czero]))
    as (outs & s' & Hfeed & _ & _ & Hper).
  - constructor; simpl; lia.
  - exists outs, s'. split; [exact Hfeed|]. apply Hper. reflexivity.
Defined.

(** A 2-point stage reset in the middle of a run. *)
Lemma stage_run_in_bounds_witness :
  exists s',
    stage_run (H := poly_libm) (Stage.Config 2 1 1)
      [StageEdge false true true (Complex 1 0);
       StageEdge true false false czero;
       StageEdge false true false (Complex 2 0)]
      (Stage.State 0 czero [czero] [czero]) = Some s' /\
    Stage.wf (Stage.Config 2 1 1) s'.
Proof.
  apply (stage_run_in_bounds (H := poly_libm)).
  constructor; simpl; lia.
Defined.

(** ** Stage: one block through the butterfly *)

Section stage_block_properties.
Context `{Libm}.

Lemma stage_feed_app (cfg : Stage.config) (xs ys : list complex_t)
    (s : Stage.state) :
  stage_feed cfg (xs ++ ys) s
  = r1 ← stage_feed cfg xs s;
    r2 ← stage_feed cfg ys r1.2;
    Some (r1.1 ++ r2.1, r2.2).
Proof.
  revert s. induction xs as [|x xs IH]; intros s.
  - simpl. destruct (stage_feed cfg ys s) as [[o t]|]; done.
  - cbn [app stage_feed].
    destruct (Stage.process cfg false true false x s) as [s1|]; [|done].
    cbn [mbind option_bind]. rewrite IH.
    destruct (stage_feed cfg xs s1) as [[o1 t1]|]; [|done].
    cbn [mbind option_bind fst snd].
    destruct (stage_feed cfg ys t1) as [[o2 t2]|]; done.
Qed.

(** Store and forward: while the counter stays in the first half, the
    inputs fill [buf_in] from the counter on and [buf_out] is read out
    from the same position. *)
Lemma feed_phase1 (cfg : Stage.config) (xs : list complex_t)
    (s : Stage.state) :
  Stage.wf cfg s ->
  Stage.cnt s + Z.of_nat (length xs) <= Stage.delay_len cfg ->
  let c := Z.to_nat (Stage.cnt s) in
  exists s',
    stage_feed cfg xs s
    = Some (take (length xs) (drop c (Stage.buf_out s)), s') /\
    Stage.wf cfg s' /\
    Stage.cnt s' = Stage.cnt s + Z.of_nat (length xs) /\
    Stage.buf_out s' = Stage.buf_out s /\
    Stage.buf_in s'
    = take c (Stage.buf_in s) ++ xs
      ++ drop (c + length xs) (Stage.buf_in s).
Proof.
  revert s. induction xs as [|x xs IH]; intros s Hwf Hlen c.
  - exists s. simpl. rewrite Z.add_0_r, Nat.add_0_r, take_drop. done.
  - rewrite length_cons in Hlen.
    pose proof (process_phase1 cfg s false x Hwf) as Hp1.
    cbv zeta in Hp1. cbn [Stage.synced_cnt Stage.synced_buf_in
                          Stage.synced_buf_out] in Hp1. fold c in Hp1.
    destruct Hp1 as (o & Ho & Hs1); [lia|].
    pose proof Hwf as [Hsize Hdelay Hoff Hcnt Hlin Hlout].
    rewrite Z.mod_small in Hs1 by lia.
    destruct (process_wf cfg false true false x s Hwf) as (s1 & Hs1' & Hwf1).
    rewrite Hs1 in Hs1'. injection Hs1' as <-.
    destruct (IH _ Hwf1) as (s' & Hfeed & Hwf' & Hcnt' & Hbo & Hbi);
      [simpl; lia|].
    cbn [Stage.cnt Stage.buf_in Stage.buf_out] in Hfeed, Hcnt', Hbo, Hbi.
    replace (Z.to_nat (Stage.cnt s + 1)) with (S c) in Hfeed, Hbi
      by (unfold c; lia).
    exists s'. cbn [stage_feed]. rewrite Hs1. cbn [mbind option_bind].
    rewrite Hfeed. cbn [mbind option_bind fst snd Stage.out_data].
    split; [|split; [done|split; [|split; [done|]]]].
    + rewrite (drop_S _ _ _ Ho). done.
    + rewrite Hcnt', length_cons. lia.
    + rewrite Hbi.
      assert (Hc : (c < length (Stage.buf_in s))%nat) by (unfold c; lia).
      rewrite (take_S_r _ _ x) by (by apply list_lookup_insert_eq).
      rewrite take_insert_ge by lia.
      rewrite drop_insert_lt by lia.
      replace (c + length (x :: xs))%nat with (S c + length xs)%nat
        by (rewrite length_cons; lia).
      by rewrite <- app_assoc.
Qed.

Lemma butterfly_diffs_nil_r (cfg : Stage.config) (k : Z)
    (xs : list complex_t) :
  butterfly_diffs cfg k xs [] = [].
Proof. by destruct xs. Qed.

(** Compute: while the counter stays in the second half, each input is
    paired with the stored sample, the sums are written to [out_data] and
    the twiddled differences to [buf_out]. *)
Lemma feed_phase2 (cfg : Stage.config) (ys : list complex_t)
    (s : Stage.state) :
  Stage.wf cfg s ->
  Stage.delay_len cfg <= Stage.cnt s ->
  Stage.cnt s + Z.of_nat (length ys) <= Stage.N_stage cfg ->
  let k := Stage.cnt s - Stage.delay_len cfg in
  let k0 := Z.to_nat k in
  exists s',
    stage_feed cfg ys s
    = Some (zip_with cadd (drop k0 (Stage.buf_in s)) ys, s') /\
    Stage.wf cfg s' /\
    Stage.cnt s'
    = (Stage.cnt s + Z.of_nat (length ys)) mod Stage.N_stage cfg /\
    Stage.buf_in s' = Stage.buf_in s /\
    Stage.buf_out s'
    = take k0 (Stage.buf_out s)
      ++ butterfly_diffs cfg k (drop k0 (Stage.buf_in s)) ys
      ++ drop (k0 + length ys) (Stage.buf_out s).
Proof.
  revert s. induction ys as [|y ys IH]; intros s Hwf Hge Hlen k k0.
  - exists s. simpl. pose proof Hwf as [? ? ? ? ? ?].
    rewrite zip_with_nil_r, butterfly_diffs_nil_r, Z.add_0_r, Nat.add_0_r.
    rewrite Z.mod_small by lia. simpl. by rewrite take_drop.
  - rewrite length_cons in Hlen.
    pose proof (process_phase2 cfg s false y Hwf) as Hp2.
    cbv zeta in Hp2. cbn [Stage.synced_cnt Stage.synced_buf_in
                          Stage.synced_buf_out] in Hp2. fold k k0 in Hp2.
    destruct Hp2 as (a & Ha & Hs1); [done|].
    pose proof Hwf as [Hsize Hdelay Hoff Hcnt Hlin Hlout].
    destruct (process_wf cfg false true false y s Hwf) as (s1 & Hs1' & Hwf1).
    rewrite Hs1 in Hs1'. injection Hs1' as <-.
    assert (Hk0 : (k0 < length (Stage.buf_out s))%nat) by (unfold k0, k; lia).
    cbn [stage_feed]. rewrite Hs1. cbn [mbind option_bind].
    rewrite (drop_S _ _ _ Ha). cbn [zip_with butterfly_diffs].
    destruct ys as [|y2 ys].
    + cbn [stage_feed mbind option_bind fst snd].
      rewrite zip_with_nil_r, butterfly_diffs_nil_r.
      eexists. split; [reflexivity|]. cbn [fst snd Stage.out_data Stage.cnt
        Stage.buf_in Stage.buf_out length].
      split; [done|]. split; [f_equal; lia|]. split; [done|].
      rewrite insert_take_drop by done.
      by replace (k0 + 1)%nat with (S k0) by lia.
    + rewrite length_cons in Hlen.
      set (s1 := Stage.State _ _ _ _) in *.
      assert (Hc1 : Stage.cnt s1 = Stage.cnt s + 1)
        by (unfold s1; simpl; apply Z.mod_small; lia).
      destruct (IH s1 Hwf1) as (s' & Hfeed & Hwf' & Hcnt' & Hbi & Hbo);
        [lia|rewrite Hc1, length_cons; lia|].
      rewrite Hc1 in Hfeed, Hcnt', Hbo.
      replace (Z.to_nat (Stage.cnt s + 1 - Stage.delay_len cfg)) with (S k0)
        in Hfeed, Hbo by (unfold k0, k; lia).
      replace (Stage.cnt s + 1 - Stage.delay_len cfg) with (k + 1)
        in Hbo by (unfold k; lia).
      rewrite Hfeed. exists s'.
      cbn [mbind option_bind fst snd].
      split; [done|]. split; [done|]. split; [|split; [done|]].
      * rewrite Hcnt'. f_equal. rewrite !length_cons. lia.
      * rewrite Hbo. unfold s1. cbn [Stage.buf_out Stage.buf_in].
        rewrite take_S_r with (x := cmul (csub a y)
                  (Stage.get_twiddle k (Stage.N_stage cfg)))
          by (by apply list_lookup_insert_eq).
        rewrite take_insert_ge by lia.
        rewrite drop_insert_lt by (rewrite !length_cons; lia).
        replace (k0 + length (y :: y2 :: ys))%nat
          with (S k0 + length (y2 :: ys))%nat by (rewrite !length_cons; lia).
        by rewrite <- app_assoc.
Qed.

(** X3: one block through a stage.  Starting at counter 0, feeding the
    first half [xs] and then the second half [ys] of a block writes to
    [out_data] first the old content of [buf_out] and then the sums
    [xs_k + ys_k]; it leaves the counter at 0, [xs] in [buf_in] and the
    twiddled differences [(xs_k - ys_k) * W_k] in [buf_out], which the
    next block therefore emits during its first half. *)
Theorem stage_block_butterfly (cfg : Stage.config) (xs ys : list complex_t)
    (s : Stage.state) :
  Stage.wf cfg s -> Stage.cnt s = 0 ->
  Z.of_nat (length xs) = Stage.delay_len cfg ->
  Z.of_nat (length ys) = Stage.delay_len cfg ->
  exists s',
    stage_feed cfg (xs ++ ys) s
    = Some (Stage.buf_out s ++ zip_with cadd xs ys, s') /\
    Stage.wf cfg s' /\
    Stage.cnt s' = 0 /\
    Stage.buf_in s' = xs /\
    Stage.buf_out s' = butterfly_diffs cfg 0 xs ys.
Proof.
  intros Hwf Hcnt Hxs Hys.
  pose proof Hwf as [Hsize Hdelay Hoff Hc Hlin Hlout].
  destruct (feed_phase1 cfg xs s Hwf) as (s1 & Hf1 & Hwf1 & Hc1 & Hbo1 & Hbi1);
    [lia|].
  rewrite Hcnt in Hf1, Hc1, Hbi1. simpl in Hf1, Hbi1.
  rewrite drop_0, take_ge in Hf1 by lia.
  rewrite drop_ge, app_nil_r in Hbi1 by lia.
  destruct (feed_phase2 cfg ys s1 Hwf1) as (s' & Hf2 & Hwf' & Hc' & Hbi' & Hbo');
    [lia|lia|].
  rewrite Hc1, Hbi1 in Hf2. rewrite Hc1, Hbi1, Hbo1 in Hbo'.
  rewrite Hc1 in Hc'.
  replace (0 + Z.of_nat (length xs) - Stage.delay_len cfg) with 0
    in Hf2, Hbo' by lia.
  simpl in Hf2, Hbo'. rewrite drop_0 in Hf2, Hbo'.
  rewrite drop_ge, app_nil_r in Hbo' by lia.
  exists s'. rewrite stage_feed_app, Hf1. cbn [mbind option_bind fst snd].
  rewrite Hf2. cbn [mbind option_bind fst snd].
  split; [done|]. split; [done|]. split; [|split; [congruence|done]].
  rewrite Hc'. replace (0 + Z.of_nat (length xs) + Z.of_nat (length ys))
    with (1 * Stage.N_stage cfg) by lia.
  apply Z.mod_mul. lia.
Qed.

End stage_block_properties.

(** A 2-point stage: the sum comes out at once, the difference is kept. *)
Lemma stage_block_butterfly_witness :
  exists s',
    stage_feed (H := poly_libm) (Stage.Config 2 1 0)
      [Complex 3 0; Complex 1 0] (Stage.State 0 czero [czero] [czero])
    = Some ([czero; Complex 4 0], s') /\
    Stage.buf_in s' = [Complex 3 0].
Proof.
  destruct (stage_block_butterfly (H := poly_libm) (Stage.Config 2 1 0)
              [Complex 3 0] [Complex 1 0]
              (Stage.State 0 czero [czero] [czero]))
    as (s' & Hfeed & _ & _ & Hbi & _);
    [constructor; simpl; lia|reflexivity|reflexivity|reflexivity|].
  exists s'. split; [exact Hfeed|exact Hbi].
Defined.

(** ** Stage: an odd size *)

Section stage_odd_properties.
Context `{Libm}.

(** What a defined enabled edge does to the counter and to the buffer
    sizes, for any configuration. *)
Lemma process_Some_shape (cfg : Stage.config) (x : complex_t)
    (s s' : Stage.state) :
  Stage.process cfg false true false x s = Some s' ->
  Stage.cnt s' = Z.rem (Stage.cnt s + 1) (Stage.N_stage cfg) /\
  length (Stage.buf_in s') = length (Stage.buf_in s) /\
  length (Stage.buf_out s') = length (Stage.buf_out s).
Proof.
  unfold Stage.process, vec_set.
  destruct (Stage.N_stage cfg =? 0); [done|].
  destruct (Stage.cnt s <? Stage.delay_len cfg).
  - destruct (_ && _); [|done]. cbn [mbind option_bind].
    destruct (vec_get _ _); [|done]. cbn [mbind option_bind].
    intros [= <-]. simpl. by rewrite length_insert.
  - destruct (vec_get _ _); [|done]. cbn [mbind option_bind].
    destruct (_ && _); [|done]. cbn [mbind option_bind].
    intros [= <-]. simpl. by rewrite length_insert.
Qed.

Lemma process_odd_last (cfg : Stage.config) (x : complex_t) (s : Stage.state) :
  0 <= Stage.delay_len cfg ->
  Stage.N_stage cfg = 2 * Stage.delay_len cfg + 1 ->
  Z.of_nat (length (Stage.buf_in s)) = Stage.delay_len cfg ->
  Stage.cnt s = Stage.N_stage cfg - 1 ->
  Stage.process cfg false true false x s = None.
Proof.
  intros Hd Hn Hlen Hcnt. unfold Stage.process, vec_get.
  destruct (Z.eqb_spec (Stage.N_stage cfg) 0) as [|_]; [done|].
  destruct (Z.ltb_spec (Stage.cnt s) (Stage.delay_len cfg)) as [|_]; [lia|].
  destruct (Z.leb_spec 0 (Stage.cnt s - Stage.delay_len cfg)) as [_|]; [|lia].
  rewrite (proj2 (lookup_ge_None _ _)) by lia. done.
Qed.

Lemma feed_odd_fails (cfg : Stage.config) (d : nat) (xs : list complex_t)
    (s : Stage.state) :
  0 <= Stage.delay_len cfg ->
  Stage.N_stage cfg = 2 * Stage.delay_len cfg + 1 ->
  Z.of_nat (length (Stage.buf_in s)) = Stage.delay_len cfg ->
  0 <= Stage.cnt s ->
  Stage.cnt s + Z.of_nat d = Stage.N_stage cfg - 1 ->
  (d < length xs)%nat ->
  stage_feed cfg xs s = None.
Proof.
  intros Hd Hn. revert xs s.
  induction d as [|d IH]; intros xs s Hlen Hc Hcnt Hxs;
    (destruct xs as [|x xs]; [simpl in Hxs; lia|]); cbn [stage_feed].
  - rewrite process_odd_last by (try done; lia). done.
  - destruct (Stage.process cfg false true false x s) as [s1|] eqn:Hs1;
      [|done].
    cbn [mbind option_bind].
    destruct (process_Some_shape _ _ _ _ Hs1) as (Hc1 & Hl1 & _).
    rewrite Z.rem_small in Hc1 by lia.
    rewrite (IH xs s1); [done|lia|lia|lia|simpl in Hxs; lia].
Qed.

(** X4: an odd size is accepted by the constructor but cannot run a
    period.  For every odd [n >= 1] the stage built by [Stage(n)] leaves
    its input buffer on the edge that finds the counter at [n - 1] (it
    reads [buf_in[n/2]], one past the end), so clocking it through [n] or
    more enabled edges is undefined. *)
Theorem stage_odd_size_overruns (n id offset : Z) (xs : list complex_t) :
  1 <= n -> n mod 2 = 1 -> n <= Z.of_nat (length xs) ->
  exists cfg s,
    Stage.ctor n id offset = Some (cfg, s) /\
    Stage.delay_len cfg = n / 2 /\
    stage_feed cfg xs s = None /\
    forall x s',
      Z.of_nat (length (Stage.buf_in s')) = n / 2 ->
      Stage.cnt s' = n - 1 ->
      Stage.process cfg false true false x s' = None.
Proof.
  intros Hn Hodd Hlen.
  pose proof (Z.div_mod n 2 ltac:(lia)) as Hdiv.
  assert (Hq : Z.quot n 2 = n / 2) by (apply Z.quot_div_nonneg; lia).
  assert (0 <= n / 2) by (apply Z.div_pos; lia).
  rewrite stage_ctor_nonneg by lia. rewrite Hq.
  do 2 eexists. split; [reflexivity|]. cbn [Stage.delay_len].
  split; [done|]. split.
  - apply (feed_odd_fails _ (Z.to_nat (n - 1))); simpl;
      rewrite ?length_replicate; lia.
  - intros x s' Hl Hc. apply process_odd_last; simpl; lia.
Qed.

End stage_odd_properties.

(** The size-3 stage of a 6-point FFT. *)
Lemma stage_odd_size_overruns_witness :
  exists cfg s,
    Stage.ctor 3 1 2 = Some (cfg, s) /\
    stage_feed (H := poly_libm) cfg [czero; czero; czero] s = None.
Proof.
  destruct (stage_odd_size_overruns (H := poly_libm) 3 1 2
              [czero; czero; czero])
    as (cfg & s & Hctor & _ & Hfeed & _); [lia|reflexivity|simpl; lia|].
  exists cfg, s. split; [exact Hctor|exact Hfeed].
Defined.

(** ** Signals and the sign of a zero *)

Lemma is_zero_spec (x : float) :
  PrimFloat.is_zero x = true
  <-> exists s, FloatOps.Prim2SF x = SpecFloat.S754_zero s.
Proof.
  unfold PrimFloat.is_zero. rewrite FloatAxioms.eqb_spec.
  change (FloatOps.Prim2SF 0) with (SpecFloat.S754_zero false).
  unfold SpecFloat.SFeqb.
  destruct (FloatOps.Prim2SF x) as [s|s| |s m e]; simpl.
  - split; [by exists s|done].
  - destruct s; split; try done; by intros [? ?].
  - split; try done; by intros [? ?].
  - destruct s; split; try done; by intros [? ?].
Qed.

Lemma fsame_spec (x y : float) :
  fsame x y <-> sf_same (FloatOps.Prim2SF x) (FloatOps.Prim2SF y).
Proof.
  unfold fsame, sf_same. rewrite !is_zero_spec. split.
  - intros [->|[[s Hs] [s' Hs']]]; [by left|right; by exists s, s'].
  - intros [Heq|(s & s' & Hs & Hs')].
    + left. by apply FloatAxioms.Prim2SF_inj.
    + right. split; [by exists s|by exists s'].
Qed.

Lemma sf_same_add (X X' Y Y' : SpecFloat.spec_float) :
  sf_same X X' -> sf_same Y Y' ->
  sf_same (FloatAxioms.SF64add X Y) (FloatAxioms.SF64add X' Y').
Proof.
  intros [->|(s & s' & -> & ->)] [->|(t & t' & -> & ->)].
  - by left.
  - destruct X' as [u|u| |u m e]; simpl; try by left.
    right. destruct u, t, t'; simpl; eauto.
  - destruct Y' as [u|u| |u m e]; simpl; try by left.
    right. destruct u, s, s'; simpl; eauto.
  - right. destruct s, s', t, t'; simpl; eauto.
Qed.

Lemma sf_same_sub (X X' Y Y' : SpecFloat.spec_float) :
  sf_same X X' -> sf_same Y Y' ->
  sf_same (FloatAxioms.SF64sub X Y) (FloatAxioms.SF64sub X' Y').
Proof.
  intros [->|(s & s' & -> & ->)] [->|(t & t' & -> & ->)].
  - by left.
  - destruct X' as [u|u| |u m e]; simpl; try by left.
    right. destruct u, t, t'; simpl; eauto.
  - destruct Y' as [u|u| |u m e]; simpl; try by left.
    right. destruct u, s, s'; simpl; eauto.
  - right. destruct s, s', t, t'; simpl; eauto.
Qed.

Lemma sf_same_mul (X X' Y Y' : SpecFloat.spec_float) :
  sf_same X X' -> sf_same Y Y' ->
  sf_same (FloatAxioms.SF64mul X Y) (FloatAxioms.SF64mul X' Y').
Proof.
  intros [->|(s & s' & -> & ->)] [->|(t & t' & -> & ->)].
  - by left.
  - destruct X' as [u|u| |u m e]; simpl; try (by left); right; eauto.
  - destruct Y' as [u|u| |u m e]; simpl; try (by left); right; eauto.
  - right. simpl. eauto.
Qed.

Lemma fsame_add (x x' y y' : float) :
  fsame x x' -> fsame y y' -> fsame (x + y) (x' + y').
Proof. rewrite !fsame_spec, !FloatAxioms.add_spec. apply sf_same_add. Qed.

Lemma fsame_sub (x x' y y' : float) :
  fsame x x' -> fsame y y' -> fsame (x - y) (x' - y').
Proof. rewrite !fsame_spec, !FloatAxioms.sub_spec. apply sf_same_sub. Qed.

Lemma fsame_mul (x x' y y' : float) :
  fsame x x' -> fsame y y' -> fsame (x * y) (x' * y').
Proof. rewrite !fsame_spec, !FloatAxioms.mul_spec. apply sf_same_mul. Qed.

Lemma fsame_refl (x : float) : fsame x x.
Proof. by left. Qed.

Lemma fsame_sym (x y : float) : fsame x y -> fsame y x.
Proof. intros [->|[? ?]]; [by left|by right]. Qed.

Lemma fsame_trans (x y z : float) : fsame x y -> fsame y z -> fsame x z.
Proof. intros [->|[Hx Hy]] [->|[Hy' Hz]]; try (by left); by right. Qed.

(** [==] on [double]s relates only values that are the same up to the
    sign of a zero. *)
Lemma eqb_fsame (x y : float) : (x =? y)%float = true -> fsame x y.
Proof.
  rewrite FloatAxioms.eqb_spec, fsame_spec. unfold SpecFloat.SFeqb, sf_same.
  destruct (FloatOps.Prim2SF x) as [s|s| |s m e],
           (FloatOps.Prim2SF y) as [s'|s'| |s' m' e']; simpl; try done;
    try (by destruct s); try (by destruct s').
  - intros _. right. eauto.
  - destruct s, s'; try done; by left.
  - change (PosDef.Pos.compare_cont Eq m m') with (Pos.compare m m').
    destruct s, s'; try done;
      (destruct (Z.compare_spec e e') as [->| |]; try done;
       destruct (Pos.compare_spec m m') as [->| |]; try done;
       intros _; by left).
Qed.

Lemma csame_refl (a : complex_t) : csame a a.
Proof. split; apply fsame_refl. Qed.

Lemma csame_sym (a b : complex_t) : csame a b -> csame b a.
Proof. intros [? ?]. split; by apply fsame_sym. Qed.

Lemma csame_trans (a b c : complex_t) : csame a b -> csame b c -> csame a c.
Proof. intros [? ?] [? ?]. split; by eapply fsame_trans. Qed.

Lemma cadd_same (a a' b b' : complex_t) :
  csame a a' -> csame b b' -> csame (cadd a b) (cadd a' b').
Proof. intros [? ?] [? ?]. split; simpl; by apply fsame_add. Qed.

Lemma csub_same (a a' b b' : complex_t) :
  csame a a' -> csame b b' -> csame (csub a b) (csub a' b').
Proof. intros [? ?] [? ?]. split; simpl; by apply fsame_sub. Qed.

Lemma cmul_same (a a' b b' : complex_t) :
  csame a a' -> csame b b' -> csame (cmul a b) (cmul a' b').
Proof.
  intros [? ?] [? ?]. split; simpl.
  - apply fsame_sub; by apply fsame_mul.
  - apply fsame_add; by apply fsame_mul.
Qed.

(** A signal carries the value written to it up to the sign of a zero. *)
Lemma signal_write_same (cur v w : complex_t) :
  csame v w -> csame (signal_write cur v) w.
Proof.
  intros Hvw. unfold signal_write, ceqb.
  destruct (real cur =? real v)%float eqn:Hre; [|done].
  destruct (imag cur =? imag v)%float eqn:Him; [|done]. simpl.
  apply csame_trans with v; [|done].
  split; by apply eqb_fsame.
Qed.

Lemma vec_get_same (v w : list complex_t) (i : Z) :
  Forall2 csame v w -> option_Forall2 csame (vec_get v i) (vec_get w i).
Proof.
  intros Hvw. unfold vec_get. destruct (0 <=? i); [|constructor].
  by apply Forall2_lookup.
Qed.

Lemma vec_set_same (v w : list complex_t) (i : Z) (x y : complex_t) :
  Forall2 csame v w -> csame x y ->
  option_Forall2 (Forall2 csame) (vec_set v i x) (vec_set w i y).
Proof.
  intros Hvw Hxy. unfold vec_set. rewrite (Forall2_length _ _ _ Hvw).
  destruct ((0 <=? i) && (i <? Z.of_nat (length w))); constructor.
  by apply Forall2_insert.
Qed.

Lemma vec_fill_same (v w : list complex_t) :
  Forall2 csame v w -> Forall2 csame (vec_fill v czero) (vec_fill w czero).
Proof.
  intros Hvw. unfold vec_fill. rewrite (Forall2_length _ _ _ Hvw).
  apply Forall2_replicate, csame_refl.
Qed.

Lemma Forall2_csame_refl (v : list complex_t) : Forall2 csame v v.
Proof.
  apply Forall_Forall2_diag, Forall_forall. intros. apply csame_refl.
Qed.

Lemma stage_same_refl (s : Stage.state) : stage_same s s.
Proof.
  split; [done|split; [apply csame_refl|split; apply Forall2_csame_refl]].
Qed.

Section stage_sign_of_zero.
Context `{Libm}.

(** [process] maps stages and inputs that are the same up to the sign of
    a zero to stages that are. *)
Lemma process_same (cfg : Stage.config) (rst enable sync : bool)
    (x y : complex_t) (s t : Stage.state) :
  stage_same s t -> csame x y ->
  option_Forall2 stage_same
    (Stage.process cfg rst enable sync x s)
    (Stage.process cfg rst enable sync y t).
Proof.
  intros (Hcnt & Hout & Hbi & Hbo) Hxy. unfold Stage.process.
  destruct rst.
  { constructor.
    split; [done|split; [apply csame_refl|split; by apply vec_fill_same]]. }
  destruct enable; [|by constructor].
  rewrite <- Hcnt.
  set (c := if sync then Stage.init_offset cfg else Stage.cnt s).
  assert (Hbi' : Forall2 csame
                   (if sync then vec_fill (Stage.buf_in s) czero
                    else Stage.buf_in s)
                   (if sync then vec_fill (Stage.buf_in t) czero
                    else Stage.buf_in t)).
  { destruct sync; [by apply vec_fill_same|done]. }
  assert (Hbo' : Forall2 csame
                   (if sync then vec_fill (Stage.buf_out s) czero
                    else Stage.buf_out s)
                   (if sync then vec_fill (Stage.buf_out t) czero
                    else Stage.buf_out t)).
  { destruct sync; [by apply vec_fill_same|done]. }
  destruct (Stage.N_stage cfg =? 0); [constructor|].
  destruct (c <? Stage.delay_len cfg).
  - destruct (vec_set_same _ _ c x y Hbi' Hxy) as [bi1 bi2 Hb|];
      [|constructor].
    cbn [mbind option_bind].
    destruct (vec_get_same _ _ c Hbo') as [o1 o2 Ho|]; constructor.
    by split; [|split; [|split]].
  - destruct (vec_get_same _ _ (c - Stage.delay_len cfg) Hbi')
      as [a1 a2 Ha|]; [|constructor].
    cbn [mbind option_bind].
    assert (Hd : csame
              (cmul (csub a1 x)
                 (Stage.get_twiddle (c - Stage.delay_len cfg)
                    (Stage.N_stage cfg)))
              (cmul (csub a2 y)
                 (Stage.get_twiddle (c - Stage.delay_len cfg)
                    (Stage.N_stage cfg)))).
    { apply cmul_same; [by apply csub_same|apply csame_refl]. }
    destruct (vec_set_same _ _ (c - Stage.delay_len cfg) _ _ Hbo' Hd)
      as [bo1 bo2 Hb|]; constructor.
    split; [done|split; [by apply cadd_same|by split]].
Qed.

(** So does the chain, signals included. *)
Lemma stages_edge_same (cfgs : list Stage.config) (rst enable sync : bool)
    (x y : complex_t) (sts tts : list Stage.state) :
  Forall2 stage_same sts tts -> csame x y ->
  option_Forall2 (Forall2 stage_same)
    (stages_edge cfgs rst enable sync x sts)
    (stages_edge cfgs rst enable sync y tts).
Proof.
  intros Hall. revert cfgs x y.
  induction Hall as [|s t sts tts Hst Hall IH]; intros cfgs x y Hxy.
  - destruct cfgs; repeat constructor.
  - destruct cfgs as [|cfg cfgs]; [repeat constructor|].
    cbn [stages_edge].
    destruct (process_same cfg rst enable sync x y s t Hst Hxy)
      as [s' t' Hst'|]; [|constructor].
    cbn [mbind option_bind].
    destruct Hst as (_ & Hout & _).
    destruct (IH cfgs _ _ Hout) as [r1 r2 Hr|]; constructor.
    constructor; [|done].
    destruct Hst' as (Hc' & Ho' & Hbi' & Hbo').
    split; [done|split; [|by split]]. cbn [settle Stage.out_data].
    apply signal_write_same, csame_sym, signal_write_same, csame_sym, Ho'.
Qed.

End stage_sign_of_zero.

(** ** FFT: the stage chain *)

(** Two samples built by the same operations from values that are the
    same up to the sign of a zero, a signal standing for what was written
    to it. *)
Ltac same_up_to_zero :=
  repeat first
    [ apply csame_refl
    | apply signal_write_same
    | apply cadd_same
    | apply csub_same
    | apply cmul_same ].

(** A trace of a concrete pipeline against the expected observations:
    the run is evaluated with the signals and the arithmetic left
    symbolic, then compared entry by entry. *)
Ltac trace_same :=
  cbv - [signal_write cadd csub cmul Stage.get_twiddle csame obs_same];
  repeat (apply List.Forall2_cons;
          [cbv beta iota delta [obs_same];
           split; [reflexivity|split; [reflexivity|same_up_to_zero]]|]);
  apply List.Forall2_nil.

Section fft_datapath_properties.
Context `{Libm}.

Lemma stages_edge_wf (cfgs : list Stage.config) (rst enable sync : bool)
    (input : complex_t) (sts : list Stage.state) :
  Forall2 Stage.wf cfgs sts ->
  exists sts', stages_edge cfgs rst enable sync input sts = Some sts' /\
               Forall2 Stage.wf cfgs sts'.
Proof.
  intros Hall. revert input.
  induction Hall as [|cfg s cfgs sts Hwf Hall IH]; intros input.
  - by exists [].
  - destruct (process_wf cfg rst enable sync input s Hwf) as (s' & Hs' & Hwf').
    destruct (IH (Stage.out_data s)) as (rest & Hrest & Hwfs).
    exists (settle s s' :: rest). cbn [stages_edge]. rewrite Hs'.
    cbn [mbind option_bind]. rewrite Hrest. split; [done|].
    constructor; [|done]. by destruct Hwf'.
Qed.

Lemma fft_run_wf (cfg : FFT.config) (ins : list fft_edge_in)
    (st : FFT.state * list Stage.state) :
  Forall2 Stage.wf (FFT.stages cfg) st.2 ->
  exists st', fft_run cfg ins st = Some st' /\
              Forall2 Stage.wf (FFT.stages cfg) st'.2.
Proof.
  revert st. induction ins as [|i ins IH]; intros st Hwf.
  - by exists st.
  - destruct (stages_edge_wf (FFT.stages cfg) (fe_rst i)
                (FFT.internal_enable st.1 (fe_in_valid i))
                (FFT.stage_sync st.1 (fe_in_valid i)) (fe_in_data i) st.2 Hwf)
      as (sts' & Hsts' & Hwf').
    destruct (IH (FFT.seq_logic cfg (fe_rst i) (fe_in_valid i) st.1, sts'))
      as (st' & Hst' & Hwf''); [done|].
    exists st'. split; [|done].
    cbn [fft_run]. unfold fft_edge. rewrite Hsts'. exact Hst'.
Qed.

(** X5: a power-of-two FFT never leaves a stage buffer.  For [N = 2^k],
    [k >= 1], the constructor succeeds, and from the constructed state
    every run is defined, whatever [rst], [in_valid] and [in_data] do:
    every stage keeps its counter in [[0, N_stage)] and its buffers at
    [delay_len] samples. *)
Theorem fft_pow2_run_in_bounds (k : Z) (ins : list fft_edge_in) :
  1 <= k -> 2 ^ k <= INT_MAX ->
  exists cfg sts0 st',
    FFT.ctor (2 ^ k) = Some cfg /\
    initial_stages cfg = Some sts0 /\
    fft_run cfg ins (FFT.initial cfg, sts0) = Some st' /\
    Forall2 Stage.wf (FFT.stages cfg) st'.2.
Proof.
  intros Hk _.
  destruct (fft_pow2_stages k Hk) as (cfg & Hctor & _ & Hsts).
  set (mk := fun c : Stage.config =>
               Stage.State 0 czero
                 (replicate (Z.to_nat (Stage.delay_len c)) czero)
                 (replicate (Z.to_nat (Stage.delay_len c)) czero)).
  assert (Hinit : initial_stages cfg = Some (map mk (FFT.stages cfg))).
  { apply mapM_Some. apply Forall2_fmap_r, Forall_Forall2_diag.
    apply Forall_lookup. intros j c Hc.
    destruct (Hsts j c Hc) as (_ & Hsize & Hd & _).
    rewrite stage_ctor_nonneg by lia. simpl. f_equal. unfold mk.
    replace (Z.quot (Stage.N_stage c) 2) with (Stage.delay_len c); [done|].
    rewrite Z.quot_div_nonneg, Hsize, Z.mul_comm, Z.div_mul by lia. done. }
  assert (Hwf0 : Forall2 Stage.wf (FFT.stages cfg) (map mk (FFT.stages cfg))).
  { apply Forall2_fmap_r, Forall_Forall2_diag.
    apply Forall_lookup. intros j c Hc.
    destruct (Hsts j c Hc) as (_ & Hsize & Hd & Hoff).
    constructor; simpl; rewrite ?length_replicate; lia. }
  destruct (fft_run_wf cfg ins (FFT.initial cfg, map mk (FFT.stages cfg)) Hwf0)
    as (st' & Hrun & Hwf').
  by exists cfg, (map mk (FFT.stages cfg)), st'.
Qed.

(** X6: the 4-point FFT computes the decimation-in-frequency flow graph.
    From the constructed state, a block of four valid samples gives,
    after the five cycles of latency, the four results of the graph with
    [out_index] 0, 1, 2, 3 (bins 0, 2, 1, 3), and a second block that
    follows without a gap gives its own four results right behind them;
    the values on [in_data] during the idle cycles play no part.  The
    results are those of the graph up to the sign of a zero: the signals
    between the stages keep a zero they hold when the zero of the other
    sign is written. *)
Theorem fft4_computes_dif (x0 x1 x2 x3 y0 y1 y2 y3 g0 g1 g2 g3 g4 : complex_t) :
  exists cfg sts0,
    FFT.ctor 4 = Some cfg /\
    initial_stages cfg = Some sts0 /\
    Forall2 obs_same
      (fft_trace cfg
         (valid_samples [x0; x1; x2; x3] ++ idle_cycles [g0; g1; g2; g3; g4])
         (FFT.initial cfg, sts0) 0 10)
      (replicate 5 no_output ++ valid_outputs (dif4 x0 x1 x2 x3)
       ++ [no_output]) /\
    Forall2 obs_same
      (fft_trace cfg
         (valid_samples [x0; x1; x2; x3; y0; y1; y2; y3]
          ++ idle_cycles [g0; g1; g2; g3; g4])
         (FFT.initial cfg, sts0) 0 14)
      (replicate 5 no_output ++ valid_outputs (dif4 x0 x1 x2 x3)
       ++ valid_outputs (dif4 y0 y1 y2 y3) ++ [no_output]).
Proof.
  do 2 eexists. split; [reflexivity|]. split; [reflexivity|].
  split; trace_same.
Qed.

(** X7: a gap inside the flush window is not a block boundary.  When the
    second block of a 4-point FFT arrives one idle cycle after the first,
    the first block is still in flight: the pipeline is enabled during
    the idle cycle, the stage counters advance over the value [g] that
    [in_data] carries then, and [stage_sync] does not fire for the second
    block.  The first block's results are intact; the four outputs that
    follow combine [g], [y0], [y1], [y2], and [y3] is paired with later
    idle values.  All values are up to the sign of a zero. *)
Theorem fft4_gap_misaligns (x0 x1 x2 x3 y0 y1 y2 y3 g g0 g1 g2 g3 g4 : complex_t) :
  exists cfg sts0,
    FFT.ctor 4 = Some cfg /\
    initial_stages cfg = Some sts0 /\
    Forall2 obs_same
      (fft_trace cfg
         (valid_samples [x0; x1; x2; x3] ++ idle_cycles [g]
          ++ valid_samples [y0; y1; y2; y3]
          ++ idle_cycles [g0; g1; g2; g3; g4])
         (FFT.initial cfg, sts0) 5 10)
      (valid_outputs (dif4 x0 x1 x2 x3) ++ [no_output]
       ++ valid_outputs
            (drop 1 (dif4 g y0 y1 y2) ++ take 1 (dif4 y3 g0 g1 g2))
       ++ [no_output]).
Proof.
  do 2 eexists. split; [reflexivity|]. split; [reflexivity|]. trace_same.
Qed.

End fft_datapath_properties.

(** The sign of a zero can differ from the flow graph's.  Stage 0 of a
    4-point FFT emits the sum [x1 + x3 = -0] and then, from [buf_out],
    two differences [+0]: the signal to stage 1 keeps the negative zero,
    and the last two results carry it. *)
Example fft4_negative_zero :
  let nz := Complex (-0)%float (-0)%float in
  exists cfg sts0,
    FFT.ctor 4 = Some cfg /\
    initial_stages cfg = Some sts0 /\
    fft_trace (H := poly_libm) cfg
      (valid_samples [Complex 5 0; nz; Complex 5 0; nz]
       ++ idle_cycles [czero; czero; czero; czero])
      (FFT.initial cfg, sts0) 5 4
    = valid_outputs [Complex 10 0; Complex 10 0; nz; nz] /\
    dif4 (H := poly_libm) (Complex 5 0) nz (Complex 5 0) nz
    = [Complex 10 0; Complex 10 0; czero; czero].
Proof.
  intros nz. do 2 eexists. split; [reflexivity|]. split; [reflexivity|].
  split; reflexivity.
Qed.

(** The 8-point FFT clocked through a reset and two samples. *)
Lemma fft_pow2_run_in_bounds_witness :
  exists cfg sts0 st',
    FFT.ctor 8 = Some cfg /\
    initial_stages cfg = Some sts0 /\
    fft_run (H := poly_libm) cfg
      [FftEdgeIn true false czero; FftEdgeIn false true (Complex 1 0);
       FftEdgeIn false true (Complex 2 0)] (FFT.initial cfg, sts0)
    = Some st' /\
    Forall2 Stage.wf (FFT.stages cfg) st'.2.
Proof.
  apply (fft_pow2_run_in_bounds (H := poly_libm) 3); [lia|done].
Defined.

(** ** FFT: the counters *)

Lemma seq_logic_pipe_length (cfg : FFT.config) (rst v : bool) (s : FFT.state) :
  length (FFT.valid_pipe (FFT.seq_logic cfg rst v s))
  = length (FFT.valid_pipe s).
Proof.
  unfold FFT.seq_logic. destruct rst; simpl; [apply length_vec_fill|].
  destruct (FFT.internal_enable s v); simpl; [|done].
  apply shift_valid_pipe_length.
Qed.

Lemma fft_regs_ok_step (cfg : FFT.config) (rst v : bool) (s : FFT.state) :
  1 <= FFT.N cfg -> fft_regs_ok cfg s ->
  fft_regs_ok cfg (FFT.seq_logic cfg rst v s).
Proof.
  intros HN (Hin & Hout & Hlen).
  split; [|split; [|by rewrite seq_logic_pipe_length]].
  - unfold FFT.seq_logic. destruct rst; simpl; [lia|].
    destruct (FFT.internal_enable s v); simpl; [|done].
    destruct v; [|done].
    destruct (Z.eqb_spec (FFT.samples_in_cnt s) (FFT.N cfg - 1)); lia.
  - unfold FFT.seq_logic. destruct rst; simpl; [lia|].
    destruct (FFT.internal_enable s v); simpl; [|done].
    destruct (FFT.stage_sync s v); [lia|].
    match goal with |- context [if ?b then _ else _] => destruct b end;
      [|done].
    rewrite Z.rem_mod_nonneg by lia. apply Z.mod_pos_bound. lia.
Qed.

Lemma fft_regs_ok_run (cfg : FFT.config) (ctl : list (bool * bool))
    (s : FFT.state) :
  1 <= FFT.N cfg -> fft_regs_ok cfg s ->
  fft_regs_ok cfg (fft_regs_run cfg ctl s).
Proof.
  intros HN. revert s. induction ctl as [|c ctl IH]; intros s Hs; [done|].
  simpl. by apply IH, fft_regs_ok_step.
Qed.

(** X8: the index outputs stay in range.  For a transfer size [N >= 1],
    from the constructed registers and whatever [rst] and [in_valid] do,
    [samples_in_cnt] and [out_cnt_reg] stay in [[0, N)] and the shift
    register keeps its length; so between edges, with [rst] low,
    [in_index] is always in [[0, N)] (it is never -1), [out_index] is in
    [[0, N)] when [out_valid] is high, and when [out_valid] is low
    [out_index] is -1 and [out_data] is zero. *)
Theorem fft_indices_in_range (cfg : FFT.config) (ctl : list (bool * bool))
    (v : bool) (d : complex_t) :
  1 <= FFT.N cfg ->
  let s := fft_regs_run cfg ctl (FFT.initial cfg) in
  let o := FFT.comb_logic false v d s in
  fft_regs_ok cfg s /\
  0 <= FFT.in_index o < FFT.N cfg /\
  (FFT.out_valid o = true -> 0 <= FFT.out_index o < FFT.N cfg) /\
  (FFT.out_valid o = false ->
   FFT.out_index o = -1 /\ FFT.out_data o = czero).
Proof.
  intros HN s o.
  assert (Hok : fft_regs_ok cfg s).
  { apply fft_regs_ok_run; [done|]. unfold fft_regs_ok, FFT.initial. simpl.
    rewrite length_replicate. lia. }
  split; [done|]. destruct Hok as (Hin & Hout & _).
  unfold o, FFT.comb_logic.
  destruct (default false (last (FFT.valid_pipe s))); simpl;
    repeat split; intros; try done; lia.
Qed.

(** The 4-point FFT after a reset and one sample. *)
Lemma fft_indices_in_range_witness :
  0 <= FFT.in_index
         (FFT.comb_logic false false czero
            (fft_regs_run (FFT.Config 4 2 5 []) [(true, false); (false, true)]
               (FFT.initial (FFT.Config 4 2 5 [])))) < 4.
Proof.
  destruct (fft_indices_in_range (FFT.Config 4 2 5 [])
              [(true, false); (false, true)] false czero) as (_ & Hin & _);
    [simpl; lia|].
  exact Hin.
Defined.

(** X9: [samples_in_cnt] counts the valid input samples modulo [N]:
    idle cycles, enabled or not, leave it alone. *)
Theorem fft_samples_in_cnt_counts (cfg : FFT.config) (ins : list bool)
    (s : FFT.state) :
  1 <= FFT.N cfg ->
  0 <= FFT.samples_in_cnt s < FFT.N cfg ->
  FFT.samples_in_cnt (FFT.run cfg ins s)
  = (FFT.samples_in_cnt s
     + Z.of_nat (length (filter (fun v => v = true) ins))) mod FFT.N cfg.
Proof.
  intros HN. revert s. induction ins as [|v ins IH]; intros s Hs.
  - simpl. rewrite Z.add_0_r. by rewrite Z.mod_small.
  - cbn [FFT.run].
    assert (Hstep : FFT.samples_in_cnt (FFT.seq_logic cfg false v s)
                    = (FFT.samples_in_cnt s + (if v then 1 else 0))
                      mod FFT.N cfg).
    { unfold FFT.seq_logic, FFT.internal_enable. destruct v; simpl.
      - destruct (Z.eqb_spec (FFT.samples_in_cnt s) (FFT.N cfg - 1)) as [->|].
        + replace (FFT.N cfg - 1 + 1) with (1 * FFT.N cfg) by lia.
          by rewrite Z.mod_mul by lia.
        + rewrite Z.mod_small; lia.
      - rewrite Z.add_0_r, Z.mod_small by done.
        by destruct (FFT.any_valid_in_pipe _). }
    rewrite IH by (rewrite Hstep; apply Z.mod_pos_bound; lia).
    rewrite Hstep, Zplus_mod_idemp_l. f_equal.
    destruct v.
    + rewrite filter_cons_True by done. rewrite length_cons. lia.
    + rewrite filter_cons_False by done. lia.
Qed.

(** Six valid samples with two gaps into a 4-point FFT. *)
Lemma fft_samples_in_cnt_counts_witness :
  FFT.samples_in_cnt
    (FFT.run (FFT.Config 4 2 5 [])
       [true; true; false; true; true; false; true; true]
       (FFT.initial (FFT.Config 4 2 5 []))) = 2.
Proof.
  rewrite fft_samples_in_cnt_counts; [reflexivity|simpl; lia|simpl; lia].
Defined.

(** ** FFT: filling and draining the validity shift register *)

Lemma seq_logic_disabled (cfg : FFT.config) (v : bool) (s : FFT.state) :
  FFT.internal_enable s v = false -> FFT.seq_logic cfg false v s = s.
Proof. intros He. unfold FFT.seq_logic. by rewrite He. Qed.

(** After [m] idle edges the first [m] entries of the register are
    clear. *)
Lemma idle_run_clears (cfg : FFT.config) (m : nat) (s : FFT.state) :
  forall i, (i < m)%nat ->
    FFT.valid_pipe (FFT.run cfg (replicate m false) s) !! i <> Some true.
Proof.
  induction m as [|m IH]; intros i Hi; [lia|].
  rewrite replicate_S_end, fft_run_snoc.
  set (s1 := FFT.run cfg (replicate m false) s) in *.
  destruct (FFT.internal_enable s1 false) eqn:He.
  - rewrite seq_logic_enabled_pipe by done.
    destruct (decide (i < length (FFT.valid_pipe s1))%nat) as [Hlt|Hge].
    + destruct i as [|i].
      * by rewrite shift_valid_pipe_head by lia.
      * rewrite shift_valid_pipe_tail by done. apply IH. lia.
    + rewrite (proj2 (lookup_ge_None _ _)); [done|].
      rewrite shift_valid_pipe_length. lia.
  - rewrite seq_logic_disabled by done.
    unfold FFT.internal_enable in He. simpl in He.
    by apply any_valid_in_pipe_false.
Qed.

(** X10: the pipeline drains and then stops.  From any state, once
    [in_valid] has been low for as many edges as the shift register is
    long, no entry of the register is set, [internal_enable] and
    [out_valid] are low, and further idle edges change no register. *)
Theorem fft_drains (cfg : FFT.config) (s : FFT.state) (m : nat)
    (d : complex_t) :
  let s' := FFT.run cfg (replicate (length (FFT.valid_pipe s)) false) s in
  (forall i, FFT.valid_pipe s' !! i <> Some true) /\
  FFT.internal_enable s' false = false /\
  FFT.out_valid (FFT.comb_logic false false d s') = false /\
  FFT.run cfg (replicate m false) s' = s'.
Proof.
  intros s'.
  assert (Hlen : forall n t, length (FFT.valid_pipe (FFT.run cfg n t))
                             = length (FFT.valid_pipe t)).
  { intros n. induction n as [|v n IH]; intros t; [done|].
    cbn [FFT.run]. by rewrite IH, seq_logic_pipe_length. }
  assert (Hclear : forall i, FFT.valid_pipe s' !! i <> Some true).
  { intros i. destruct (decide (i < length (FFT.valid_pipe s))%nat).
    - by apply idle_run_clears.
    - rewrite (proj2 (lookup_ge_None _ _)); [done|].
      unfold s'. rewrite Hlen. lia. }
  assert (Hoff : FFT.internal_enable s' false = false)
    by (by apply any_valid_in_pipe_false).
  split; [done|]. split; [done|]. split.
  - rewrite out_valid_last.
    destruct (FFT.valid_pipe s' !! _) as [[|]|] eqn:Hl; try done.
    by apply Hclear in Hl.
  - induction m as [|m IH]; [done|].
    cbn [replicate FFT.run]. by rewrite seq_logic_disabled.
Qed.

(** The shift register moves on every edge, enabled or not: a disabled
    edge finds it clear and shifts in a clear entry. *)
Lemma seq_logic_pipe (cfg : FFT.config) (v : bool) (s : FFT.state) :
  FFT.valid_pipe (FFT.seq_logic cfg false v s)
  = take (length (FFT.valid_pipe s)) (v :: FFT.valid_pipe s).
Proof.
  rewrite <- shift_valid_pipe_take.
  destruct (FFT.internal_enable s v) eqn:He.
  - by apply seq_logic_enabled_pipe.
  - rewrite seq_logic_disabled by done.
    unfold FFT.internal_enable in He. apply orb_false_iff in He as [-> Hnone].
    pose proof (proj1 (any_valid_in_pipe_false _) Hnone) as Hclear.
    apply list_eq. intros i.
    destruct (decide (i < length (FFT.valid_pipe s))%nat) as [Hlt|Hge].
    + assert (Hfalse : forall k, (k < length (FFT.valid_pipe s))%nat ->
                FFT.valid_pipe s !! k = Some false).
      { intros k Hk. destruct (lookup_lt_is_Some_2 _ _ Hk) as [[|] Hb]; [|done].
        by apply Hclear in Hb. }
      rewrite (Hfalse i Hlt). destruct i as [|i].
      * by rewrite shift_valid_pipe_head by lia.
      * rewrite shift_valid_pipe_tail by lia. symmetry. apply Hfalse. lia.
    + rewrite !(proj2 (lookup_ge_None _ _)); [done| |lia].
      rewrite shift_valid_pipe_length. lia.
Qed.

Lemma take_app_take {A} (n : nat) (a b : list A) :
  take n (a ++ take n b) = take n (a ++ b).
Proof.
  rewrite !take_app, take_take. do 2 f_equal. lia.
Qed.

(** The register holds the last inputs, newest first. *)
Lemma run_pipe (cfg : FFT.config) (ins : list bool) (s : FFT.state) :
  FFT.valid_pipe (FFT.run cfg ins s)
  = take (length (FFT.valid_pipe s)) (reverse ins ++ FFT.valid_pipe s).
Proof.
  revert s. induction ins as [|v ins IH]; intros s.
  - simpl. by rewrite take_ge.
  - cbn [FFT.run]. rewrite IH, seq_logic_pipe_length, seq_logic_pipe.
    rewrite take_app_take, reverse_cons, <- app_assoc. done.
Qed.

(** X11: [out_valid] is [in_valid], one latency later.  Whatever the
    registers hold, after [j] edges of a run [out_valid] shows element
    [j - L] of the run's [in_valid] values (counted from 0), the one that
    stood at the input [L] cycles before, [L] being the length of the
    shift register; after fewer than [L] edges it shows what the register
    held before the run.  So every valid input is answered by exactly
    one valid output, idle cycles by idle cycles, and clock gating never
    stretches or drops one. *)
Theorem fft_out_valid_delays_in_valid (cfg : FFT.config) (s : FFT.state)
    (ins : list bool) (j : nat) (d : complex_t) (v : bool) :
  let L := length (FFT.valid_pipe s) in
  (1 <= L)%nat -> (j <= length ins)%nat ->
  FFT.out_valid (FFT.comb_logic false v d (FFT.run cfg (take j ins) s))
  = if decide (L <= j)%nat then default false (ins !! (j - L)%nat)
    else default false (FFT.valid_pipe s !! (L - 1 - j)%nat).
Proof.
  intros L HL Hj.
  assert (Hlenj : length (take j ins) = j) by (rewrite length_take; lia).
  rewrite out_valid_last, run_pipe. fold L.
  rewrite length_take, length_app, length_reverse, Hlenj.
  replace (pred (min L (j + L))) with (L - 1)%nat by lia.
  rewrite lookup_take_lt by lia.
  destruct (decide (L <= j)%nat) as [Hge|Hlt].
  - rewrite lookup_app_l by (rewrite length_reverse; lia).
    rewrite reverse_lookup by lia. rewrite Hlenj.
    rewrite lookup_take_lt by lia. do 2 f_equal. lia.
  - rewrite lookup_app_r by (rewrite length_reverse; lia).
    rewrite length_reverse, Hlenj. do 2 f_equal. lia.
Qed.

(** A lone sample behind an idle cycle, in a 4-point FFT of latency 5:
    it shows at the output after six edges, and is gone after seven. *)
Lemma fft_out_valid_delays_in_valid_witness :
  let ins := [false; true; false; false; false; false; false] in
  FFT.out_valid
    (FFT.comb_logic false false czero
       (FFT.run (FFT.Config 4 2 5 []) (take 6 ins)
          (FFT.initial (FFT.Config 4 2 5 [])))) = true /\
  FFT.out_valid
    (FFT.comb_logic false false czero
       (FFT.run (FFT.Config 4 2 5 []) (take 7 ins)
          (FFT.initial (FFT.Config 4 2 5 [])))) = false.
Proof.
  intros ins. split.
  - rewrite (fft_out_valid_delays_in_valid (FFT.Config 4 2 5 [])
               (FFT.initial (FFT.Config 4 2 5 [])) ins 6 czero false)
      by (simpl; lia).
    destruct (decide _) as [_|Hn]; [reflexivity|simpl in Hn; lia].
  - rewrite (fft_out_valid_delays_in_valid (FFT.Config 4 2 5 [])
               (FFT.initial (FFT.Config 4 2 5 [])) ins 7 czero false)
      by (simpl; lia).
    destruct (decide _) as [_|Hn]; [reflexivity|simpl in Hn; lia].
Defined.

(** ** FFT: output indices of a stream *)

Lemma streaming_start (cfg : FFT.config) (L : nat) (s : FFT.state) :
  (2 <= L)%nat ->
  FFT.valid_pipe s = replicate L false -> FFT.samples_in_cnt s = 0 ->
  streaming cfg L 1 (FFT.seq_logic cfg false true s).
Proof.
  intros HL Hpipe Hin.
  assert (Hnone : FFT.any_valid_in_pipe (FFT.valid_pipe s) = false).
  { apply any_valid_in_pipe_false. intros i Hi. rewrite Hpipe in Hi.
    by apply lookup_replicate_lt in Hi. }
  unfold streaming, FFT.seq_logic, FFT.internal_enable, FFT.stage_sync.
  rewrite Hnone, Hin. simpl.
  rewrite shift_valid_pipe_length, Hpipe, length_replicate.
  split; [done|]. split.
  - intros [|i] Hi.
    + rewrite shift_valid_pipe_head by (rewrite length_replicate; lia). done.
    + rewrite shift_valid_pipe_tail by (rewrite length_replicate; lia).
      rewrite lookup_replicate_2 by lia.
      by rewrite bool_decide_eq_false_2 by lia.
  - destruct (decide (1 < L)%nat); [done|lia].
Qed.

Lemma streaming_step (cfg : FFT.config) (L j : nat) (s : FFT.state) :
  1 <= FFT.N cfg -> (2 <= L)%nat -> (1 <= j)%nat ->
  streaming cfg L j s ->
  streaming cfg L (S j) (FFT.seq_logic cfg false true s).
Proof.
  intros HN HL Hj (Hlen & Hpipe & Hcnt).
  assert (Hany : FFT.any_valid_in_pipe (FFT.valid_pipe s) = true).
  { apply any_valid_in_pipe_true. exists 0%nat.
    rewrite Hpipe by lia. by rewrite bool_decide_eq_true_2 by lia. }
  unfold streaming, FFT.seq_logic, FFT.internal_enable, FFT.stage_sync.
  rewrite Hany, andb_false_r. simpl.
  rewrite shift_valid_pipe_length, Hlen.
  split; [done|]. split.
  - intros [|i] Hi.
    + rewrite shift_valid_pipe_head by lia.
      by rewrite bool_decide_eq_true_2 by lia.
    + rewrite shift_valid_pipe_tail by lia.
      rewrite Hpipe by lia. f_equal. apply bool_decide_ext. lia.
  - destruct (Z.ltb_spec 1 (Z.of_nat L)) as [_|]; [|lia].
    replace (Z.to_nat (Z.of_nat L - 2)) with (L - 2)%nat by lia.
    rewrite Hpipe by lia. simpl. rewrite Hcnt.
    destruct (decide (S j < L)%nat) as [Hlt|Hge].
    + rewrite bool_decide_eq_false_2 by lia.
      destruct (decide (j < L)%nat); [done|lia].
    + rewrite bool_decide_eq_true_2 by lia.
      destruct (decide (j < L)%nat) as [Hlast|Hpast].
      * replace (FFT.N cfg - 1 + 1) with (FFT.N cfg) by lia.
        rewrite Z.rem_mod_nonneg, Z.mod_same by lia.
        replace (Z.of_nat (S j) - Z.of_nat L) with 0 by lia.
        by rewrite Z.mod_0_l by lia.
      * pose proof (Z.mod_pos_bound (Z.of_nat j - Z.of_nat L) (FFT.N cfg)).
        rewrite Z.rem_mod_nonneg by lia.
        rewrite Zplus_mod_idemp_l. f_equal. lia.
Qed.

Lemma streaming_run (cfg : FFT.config) (L j : nat) (s : FFT.state) :
  1 <= FFT.N cfg -> (2 <= L)%nat ->
  FFT.valid_pipe s = replicate L false -> FFT.samples_in_cnt s = 0 ->
  streaming cfg L (S j) (FFT.run cfg (replicate (S j) true) s).
Proof.
  intros HN HL Hpipe Hin. induction j as [|j IH].
  - by apply streaming_start.
  - rewrite replicate_S_end, fft_run_snoc.
    apply streaming_step; try done. lia.
Qed.

(** X12: the outputs of a stream are numbered from 0.  When valid
    samples arrive on every cycle at a pipeline with nothing in flight and
    [samples_in_cnt = 0], [out_valid] is high from the edge that ends the
    latency on, and after the edge number [j] (counted from the first
    sample) [out_index] is [(j - latency) mod N]: 0 for the first output,
    then 1, 2, ..., wrapping at [N] without a gap between blocks. *)
Theorem fft_stream_out_index (cfg : FFT.config) (s : FFT.state) (j : nat)
    (v : bool) (d : complex_t) :
  let L := length (FFT.valid_pipe s) in
  1 <= FFT.N cfg -> (2 <= L)%nat ->
  FFT.valid_pipe s = replicate L false -> FFT.samples_in_cnt s = 0 ->
  (L <= j)%nat ->
  let o := FFT.comb_logic false v d (FFT.run cfg (replicate j true) s) in
  FFT.out_valid o = true /\
  FFT.out_index o = (Z.of_nat j - Z.of_nat L) mod FFT.N cfg.
Proof.
  intros L HN HL Hpipe Hin Hj o.
  destruct j as [|j]; [lia|].
  destruct (streaming_run cfg L j s HN HL Hpipe Hin) as (Hlen & Hp & Hcnt).
  assert (Hlast : default false (last (FFT.valid_pipe
            (FFT.run cfg (replicate (S j) true) s))) = true).
  { rewrite last_lookup, Hlen, Hp by lia.
    simpl. apply bool_decide_eq_true_2. lia. }
  unfold o, FFT.comb_logic. rewrite Hlast.
  cbn [FFT.out_valid FFT.out_index]. split; [done|].
  rewrite Hcnt. destruct (decide (S j < L)%nat); [lia|done].
Qed.

(** The seventh edge of a stream into a 4-point FFT of latency 5: the
    third output. *)
Lemma fft_stream_out_index_witness :
  FFT.out_index
    (FFT.comb_logic false true czero
       (FFT.run (FFT.Config 4 2 5 []) (replicate 7 true)
          (FFT.initial (FFT.Config 4 2 5 [])))) = 2.
Proof.
  destruct (fft_stream_out_index (FFT.Config 4 2 5 [])
              (FFT.initial (FFT.Config 4 2 5 [])) 7 true czero) as [_ Hidx];
    [simpl; lia|simpl; lia|reflexivity|reflexivity|simpl; lia|].
  exact Hidx.
Defined.

(** ** FFT: the alignment offsets *)

(** The offset of the stage pushed [j] iterations into the loop, from the
    latency accumulated before it. *)
Lemma build_stages_offset (remaining : nat) (n i total : Z) sts tl :
  0 <= n -> 0 <= i ->
  FFT.build_stages remaining n i total = Some (sts, tl) ->
  forall (j : nat) st, sts !! j = Some st ->
    let current_N := Z.shiftr n (i + Z.of_nat j) in
    let before := total + FFT.spec_latency j n i in
    Stage.init_offset st
    = Z.rem (current_N - Z.rem before current_N) current_N.
Proof.
  intros Hn. revert i total sts tl.
  induction remaining as [|r IH]; intros i total sts tl Hi Hbuild.
  - injection Hbuild as <- _. intros j st Hl. by rewrite lookup_nil in Hl.
  - cbn [FFT.build_stages] in Hbuild.
    rewrite stage_ctor_nonneg in Hbuild by (apply Z.shiftr_nonneg; lia).
    cbn [mbind option_bind fst] in Hbuild.
    destruct (FFT.build_stages r n (i + 1) _) as [[rest tl']|] eqn:Hrest;
      [|done].
    injection Hbuild as <- _.
    intros [|j] st Hl; simpl in Hl.
    + injection Hl as <-. cbn [Stage.init_offset FFT.spec_latency].
      by rewrite !Z.add_0_r.
    + pose proof (IH (i + 1) _ rest tl' ltac:(lia) Hrest j st Hl) as Hoff.
      cbv zeta in Hoff |- *. rewrite Hoff.
      cbn [FFT.spec_latency]. rewrite <- (stage_latency_div n i) by done.
      replace (i + 1 + Z.of_nat j) with (i + Z.of_nat (S j)) by lia.
      do 3 f_equal. lia.
Qed.

(** The sum of the first [count] stage latencies of a power-of-two
    transform, from stage [i] on. *)
Lemma spec_latency_pow2_partial (count : nat) (k i : Z) :
  0 <= i -> i + Z.of_nat count <= k ->
  FFT.spec_latency count (2 ^ k) i
  = 2 ^ (k - i) - 2 ^ (k - i - Z.of_nat count) + Z.of_nat count.
Proof.
  revert i. induction count as [|c IH]; intros i Hi Hk.
  - simpl. rewrite Z.sub_0_r. lia.
  - cbn [FFT.spec_latency]. rewrite IH by lia.
    replace (2 ^ k) with (2 ^ (k - (i + 1)) * 2 ^ (i + 1))
      by (rewrite <- Z.pow_add_r by lia; f_equal; lia).
    rewrite Z.div_mul by (apply Z.pow_nonzero; lia).
    replace (k - i) with (k - (i + 1) + 1) by lia.
    rewrite (Z.pow_add_r 2 (k - (i + 1)) 1) by lia.
    replace (k - (i + 1) - Z.of_nat c) with (k - (i + 1) + 1 - Z.of_nat (S c))
      by lia.
    lia.
Qed.

(** X13: the alignment offsets in closed form.  For [N = 2^k], stage
    [j] has size [N / 2^j] and its counter offset is [(-j) mod (N / 2^j)]:
    every stage before it delays the stream by half its size plus one
    cycle, and the halves add up to a multiple of the size of stage
    [j]. *)
Theorem fft_pow2_offsets (k : Z) :
  1 <= k -> 2 ^ k <= INT_MAX ->
  exists cfg,
    FFT.ctor (2 ^ k) = Some cfg /\
    forall (j : nat) st, FFT.stages cfg !! j = Some st ->
      Stage.N_stage st = 2 ^ (k - Z.of_nat j) /\
      Stage.init_offset st = (- Z.of_nat j) mod 2 ^ (k - Z.of_nat j).
Proof.
  intros Hk _.
  destruct (fft_pow2_stages k Hk) as (cfg & Hctor & Hlen & Hsts).
  exists cfg. split; [done|]. intros j st Hl.
  destruct (Hsts j st Hl) as (Hsize & _ & _ & _). split; [done|].
  assert (Hj : Z.of_nat j < k) by (apply lookup_lt_Some in Hl; lia).
  pose proof Hctor as Hctor'.
  unfold FFT.ctor, FFT.int_log2 in Hctor'.
  destruct (FFT.build_stages _ _ _ _) as [[sts tl]|] eqn:Hbuild; [|done].
  injection Hctor' as <-. simpl in Hl.
  pose proof (build_stages_offset _ (2 ^ k) 0 0 sts tl
                ltac:(lia) ltac:(lia) Hbuild j st Hl) as Hoff.
  cbv zeta in Hoff. rewrite Hoff.
  set (M := 2 ^ (k - Z.of_nat j)).
  assert (HM : 0 < M) by (apply Z.pow_pos_nonneg; lia).
  assert (Hshift : Z.shiftr (2 ^ k) (0 + Z.of_nat j) = M).
  { rewrite Z.shiftr_div_pow2 by lia. unfold M.
    rewrite Z.add_0_l, Z.pow_sub_r by lia. done. }
  rewrite Hshift, Z.add_0_l, (spec_latency_pow2_partial j k 0) by lia.
  rewrite !Z.sub_0_r. fold M.
  assert (Hmult : 2 ^ k = M * 2 ^ Z.of_nat j).
  { unfold M. rewrite <- Z.pow_add_r by lia. f_equal. lia. }
  assert (0 < 2 ^ Z.of_nat j) by (apply Z.pow_pos_nonneg; lia).
  assert (Hbefore : (2 ^ k - M + Z.of_nat j) mod M = Z.of_nat j mod M).
  { replace (2 ^ k - M + Z.of_nat j)
      with (Z.of_nat j + (2 ^ Z.of_nat j - 1) * M) by lia.
    apply Z.mod_add. lia. }
  pose proof (Z.mod_pos_bound (Z.of_nat j) M HM).
  rewrite (Z.rem_mod_nonneg (2 ^ k - M + Z.of_nat j)) by nia.
  rewrite Hbefore, Z.rem_mod_nonneg by lia.
  rewrite Zminus_mod_idemp_r.
  replace (M - Z.of_nat j) with (- Z.of_nat j + 1 * M) by lia.
  apply Z.mod_add. lia.
Qed.

(** The offsets 0, 3, 0 of the 8-point FFT. *)
Lemma fft_pow2_offsets_witness :
  exists cfg,
    FFT.ctor 8 = Some cfg /\
    forall st, FFT.stages cfg !! 1%nat = Some st -> Stage.init_offset st = 3.
Proof.
  destruct (fft_pow2_offsets 3) as (cfg & Hctor & Hoff); [lia|done|].
  exists cfg. split; [exact Hctor|].
  intros st Hst. destruct (Hoff 1%nat st Hst) as [_ ->]. reflexivity.
Defined.

(** ** DMA: the address stream *)

Lemma wrap_succ (AW x : Z) : wrap AW (wrap AW x + 1) = wrap AW (x + 1).
Proof. unfold wrap. apply Zplus_mod_idemp_l. Qed.

Lemma transfer_addr_start (AW n : Z) (i : DMA.inputs) (s : DMA.state) :
  DMA.active s = false -> DMA.rst i = false -> DMA.start i = true ->
  0 <= DMA.base_addr i < 2 ^ AW -> 1 <= n ->
  transfer_addr AW (DMA.base_addr i) n 0 (DMA.seq_logic AW i s).
Proof.
  intros Hact Hrst Hstart Hb Hn.
  unfold transfer_addr, DMA.seq_logic. rewrite Hrst, Hstart, Hact. simpl.
  rewrite Z.min_l, Z.min_l, Z.add_0_r by lia. split; [|done].
  unfold wrap. by rewrite Z.mod_small.
Qed.

Lemma transfer_addr_step (AW b n j : Z) (i : DMA.inputs) (s : DMA.state) :
  transfer_phase n j s -> transfer_addr AW b n j s ->
  0 <= j <= n + 1 -> 1 <= n ->
  DMA.rst i = false -> DMA.num_samples i = n ->
  transfer_addr AW b n (j + 1) (DMA.seq_logic AW i s).
Proof.
  destruct s as [bs ma a sc rq rw ca], i as [r st ba ns].
  unfold transfer_phase, transfer_addr. simpl.
  intros (-> & -> & -> & -> & ->) [-> ->] Hj Hn -> ->.
  unfold DMA.seq_logic, DMA.on_active, DMA.on_start. simpl.
  destruct (Z.leb_spec j (n + 1)) as [_|]; [|lia].
  rewrite andb_false_r. simpl.
  destruct (Z.ltb_spec (Z.min (j + 1) n) n) as [Hissue|Hdone]; simpl.
  - rewrite wrap_succ. split; f_equal; lia.
  - destruct (negb _ && negb _); simpl; split; f_equal; lia.
Qed.

Lemma transfer_addr_run (AW n : Z) (i0 : DMA.inputs) (ins : list DMA.inputs)
    (s0 : DMA.state) (j : nat) :
  dma_inv s0 -> DMA.active s0 = false ->
  DMA.rst i0 = false -> DMA.start i0 = true ->
  0 <= DMA.base_addr i0 < 2 ^ AW -> 1 <= n ->
  Forall (fun i => DMA.rst i = false /\ DMA.num_samples i = n) ins ->
  Z.of_nat j <= n + 2 -> (j <= length ins)%nat ->
  transfer_addr AW (DMA.base_addr i0) n (Z.of_nat j)
    (DMA.run AW (i0 :: take j ins) s0).
Proof.
  intros Hinv Hact Hrst Hstart Hb Hn Hins.
  induction j as [|j IH]; intros Hj Hlen.
  - rewrite take_0. by apply transfer_addr_start.
  - destruct (lookup_lt_is_Some_2 ins j) as [i Hi]; [lia|].
    rewrite (take_S_r _ _ _ Hi), app_comm_cons, dma_run_snoc.
    destruct (proj1 (Forall_lookup _ _) Hins j i Hi) as [Hirst Hin].
    replace (Z.of_nat (S j)) with (Z.of_nat j + 1) by lia.
    apply transfer_addr_step; try done; try lia.
    + apply transfer_phase_run; try done; lia.
    + apply IH; lia.
Qed.

Lemma system_run_fst (AW MS : Z) (mem : list Z) (ins : list DMA.inputs)
    (sd : DMA.state * Z) :
  (DMA.system_run AW MS mem ins sd).1 = DMA.run AW ins sd.1.
Proof.
  revert sd. induction ins as [|i ins IH]; intros sd; [done|].
  cbn [DMA.system_run DMA.run]. by rewrite IH.
Qed.

Lemma system_run_snoc (AW MS : Z) (mem : list Z) (ins : list DMA.inputs)
    (i : DMA.inputs) (sd : DMA.state * Z) :
  DMA.system_run AW MS mem (ins ++ [i]) sd
  = DMA.system_edge AW MS mem i (DMA.system_run AW MS mem ins sd).
Proof.
  revert sd. induction ins as [|w ins IH]; intros sd; [done|].
  cbn [app DMA.system_run]. apply IH.
Qed.

(** X14: a transfer streams consecutive words.  After a start at
    [base_addr = b] is accepted by an idle DMA wired to the memory, with
    [num_samples = n >= 1]: the accepting edge and the next [n - 1] edges
    put the addresses [b], [b + 1], ..., [b + n - 1] on [mem_addr], each
    wrapped to the address width; [fft_valid] is high after the edges
    [1 .. n] and only then, and after edge [j] the memory output that is
    unpacked is the word the memory holds at the [j]-th address. *)
Theorem dma_streams_consecutive_words (AW MS DW n : Z) (mem : list Z)
    (pre ins : list DMA.inputs) (i0 : DMA.inputs) (d0 : Z) :
  let s0 := DMA.run AW pre DMA.initial in
  let b := DMA.base_addr i0 in
  DMA.active s0 = false ->
  DMA.rst i0 = false -> DMA.start i0 = true ->
  0 <= b < 2 ^ AW -> 1 <= n ->
  Forall (fun i => DMA.rst i = false /\ DMA.num_samples i = n) ins ->
  forall j : nat, Z.of_nat j <= n + 2 -> (j <= length ins)%nat ->
    let sd := DMA.system_run AW MS mem (i0 :: take j ins) (s0, d0) in
    let o := DMA.comb_logic DW sd.1 sd.2 in
    (Z.of_nat j <= n - 1 -> DMA.mem_addr sd.1 = wrap AW (b + Z.of_nat j)) /\
    (DMA.fft_valid o = true <-> 1 <= Z.of_nat j <= n) /\
    (1 <= Z.of_nat j <= n ->
     sd.2 = Memory.read MS false mem (wrap AW (b + Z.of_nat j - 1))).
Proof.
  intros s0 b Hact Hrst Hstart Hb Hn Hins j Hj Hlen sd o.
  assert (Hinv : dma_inv s0) by apply dma_inv_run, dma_inv_initial.
  pose proof (transfer_phase_run AW n i0 ins s0 j Hinv Hact Hrst Hstart Hn
                Hins Hj Hlen) as (_ & _ & _ & Hrq & _).
  pose proof (transfer_addr_run AW n i0 ins s0 j Hinv Hact Hrst Hstart Hb Hn
                Hins Hj Hlen) as [Haddr _].
  assert (Hfst : sd.1 = DMA.run AW (i0 :: take j ins) s0)
    by apply system_run_fst.
  split; [|split].
  - intros Hissue. rewrite Hfst, Haddr. fold b. f_equal. lia.
  - unfold o, DMA.comb_logic. rewrite Hfst, Hrq.
    destruct (Z.leb_spec 1 (Z.of_nat j)), (Z.leb_spec (Z.of_nat j) n); simpl;
      try (destruct (DW =? 64)); simpl; split; try done; lia.
  - intros [Hlo Hhi]. destruct j as [|j]; [lia|].
    destruct (lookup_lt_is_Some_2 ins j) as [i Hi]; [lia|].
    destruct (proj1 (Forall_lookup _ _) Hins j i Hi) as [Hirst _].
    unfold sd. rewrite (take_S_r _ _ _ Hi), app_comm_cons, system_run_snoc.
    unfold DMA.system_edge. cbn [snd]. rewrite Hirst, system_run_fst.
    pose proof (transfer_addr_run AW n i0 ins s0 j Hinv Hact Hrst Hstart Hb Hn
                  Hins ltac:(lia) ltac:(lia)) as [Hprev _].
    cbn [fst]. rewrite Hprev. fold b. do 2 f_equal. lia.
Qed.

(** The first transfer of the DMA testbench: the fourth sample is the
    word at address 4. *)
Lemma dma_streams_consecutive_words_witness :
  let mem := map (fun i => (i + 5) * 2 ^ 32 + i * 2) (seqZ 0 16) in
  let ins := replicate 10 (DMA.Inputs false false 1 8) in
  (DMA.system_run 12 16 mem (DMA.Inputs false true 1 8 :: take 4 ins)
     (DMA.initial, 0)).2
  = 9 * 2 ^ 32 + 8.
Proof.
  intros mem ins.
  destruct (dma_streams_consecutive_words 12 16 64 8 mem [] ins
              (DMA.Inputs false true 1 8) 0
              eq_refl eq_refl eq_refl) with (j := 4%nat)
    as (_ & _ & Hword).
  - simpl. lia.
  - lia.
  - apply Forall_replicate. by split.
  - lia.
  - simpl. lia.
  - exact (Hword ltac:(lia)).
Defined.

(** ** DMA: the idle state *)

Lemma dma_idle_step (AW : Z) (i : DMA.inputs) (s : DMA.state) :
  dma_inv s -> DMA.active s = false ->
  DMA.rst i = false -> DMA.start i = false ->
  DMA.seq_logic AW i s = s.
Proof.
  destruct s as [b ma a sc rq rw ca], i as [r st ba ns]. simpl.
  intros [Hb Hidle] -> -> ->. simpl in *. subst b.
  destruct (Hidle eq_refl) as [-> ->]. reflexivity.
Qed.

(** X15: an idle DMA is at rest.  In every reachable state [busy] equals
    [active]; and when the DMA is idle, [fft_valid] is low, and for as
    long as neither [start] nor [rst] is raised no register changes,
    whatever [base_addr] and [num_samples] do. *)
Theorem dma_idle_at_rest (AW DW : Z) (pre ins : list DMA.inputs) (d : Z) :
  let s := DMA.run AW pre DMA.initial in
  DMA.busy s = DMA.active s /\
  (DMA.active s = false ->
   DMA.fft_valid (DMA.comb_logic DW s d) = false /\
   (Forall (fun i => DMA.rst i = false /\ DMA.start i = false) ins ->
    DMA.run AW ins s = s)).
Proof.
  intros s.
  assert (Hinv : dma_inv s) by apply dma_inv_run, dma_inv_initial.
  split; [apply Hinv|]. intros Hact. split.
  - destruct Hinv as [_ Hidle]. destruct (Hidle Hact) as [Hrq _].
    unfold DMA.comb_logic. by rewrite Hrq.
  - intros Hins. induction Hins as [|i ins [Hr Hs] _ IH]; [done|].
    cbn [DMA.run]. by rewrite dma_idle_step.
Qed.

(** ** DMA: a narrow data bus *)

(** X16: on a data bus that is not 64 bits wide a word carries no
    imaginary part: the sample is (low 32 bits of the word, 0), so bits
    above the 32nd are dropped. *)
Theorem dma_unpack_narrow (DW : Z) (s : DMA.state) (raw : Z) :
  DW <> 64 -> DMA.read_req s = true ->
  DMA.comb_logic DW s raw
  = DMA.Outputs true (Complex (double_of_uint (raw mod 2 ^ 32)) 0) /\
  0 <= raw mod 2 ^ 32 < 2 ^ 32.
Proof.
  intros HDW Hrq. unfold DMA.comb_logic. rewrite Hrq.
  destruct (Z.eqb_spec DW 64) as [|_]; [done|].
  destruct (lower_half raw) as [-> Hrange]. done.
Qed.

(** A 48-bit word with bits set above the 32nd. *)
Lemma dma_unpack_narrow_witness :
  DMA.comb_logic 48 (DMA.State true 0 true 1 true false 1) 0xABCD00000007
  = DMA.Outputs true (Complex 7 0).
Proof.
  destruct (dma_unpack_narrow 48 (DMA.State true 0 true 1 true false 1)
              0xABCD00000007) as [-> _]; [lia|reflexivity|].
  reflexivity.
Defined.

(** ** Memory *)

(** X17: a word written is the word read back.  With [rst] low, a write
    to an address below [MEM_SIZE] is returned by a later read of that
    address and leaves every other address as it was; a write at or above
    [MEM_SIZE] changes nothing, a read there returns 0, and the array
    keeps its size. *)
Theorem memory_write_then_read (MS : Z) (mem : list Z) (a a' d : Z) :
  0 <= a -> 0 <= a' -> MS <= Z.of_nat (length mem) ->
  let mem' := Memory.write MS false true a d mem in
  length mem' = length mem /\
  (a < MS -> Memory.read MS false mem' a = d) /\
  (a' <> a -> Memory.read MS false mem' a' = Memory.read MS false mem a') /\
  (MS <= a -> mem' = mem /\ Memory.read MS false mem a = 0).
Proof.
  intros Ha Ha' Hlen mem'. unfold mem', Memory.write, Memory.read. simpl.
  destruct (Z.ltb_spec a MS) as [Hin|Hout].
  - rewrite length_insert. split; [done|]. split; [|split; [|lia]].
    + intros _. rewrite list_lookup_insert_eq by lia. done.
    + intros Hne. destruct (a' <? MS); [|done].
      rewrite list_lookup_insert_ne by lia. done.
  - split; [done|]. split; [lia|]. split; [done|]. done.
Qed.

(** The write sequence of the memory testbench: address 3 holds
    [3 + 0xA0]. *)
Lemma memory_write_then_read_witness :
  Memory.read 1024 false
    (Memory.write 1024 false true 3 0xA3 (replicate 1024 0)) 3 = 0xA3.
Proof.
  destruct (memory_write_then_read 1024 (replicate 1024 0) 3 4 0xA3)
    as (_ & Hread & _); [lia|lia|rewrite length_replicate; lia|].
  apply Hread. lia.
Defined.

(** X18: reset wins over a simultaneous write.  On an edge with [rst]
    high the write is dropped and the array is cleared, in whichever
    order the two processes run; the read port returns 0 on that edge,
    and every read of the cleared array returns 0. *)
Theorem memory_reset_clears (MS : Z) (mem : list Z) (en : bool)
    (a d raddr : Z) :
  Memory.clear true (Memory.write MS true en a d mem) = Memory.clear true mem /\
  Memory.write MS true en a d (Memory.clear true mem) = Memory.clear true mem /\
  Memory.read MS true mem raddr = 0 /\
  Memory.read MS false (Memory.clear true mem) raddr = 0.
Proof.
  unfold Memory.write, Memory.clear, Memory.read.
  rewrite andb_false_r. simpl. repeat split.
  destruct (raddr <? MS); [|done].
  unfold vec_fill.
  destruct (replicate (length mem) 0 !! Z.to_nat raddr) as [x|] eqn:Hx;
    [|done].
  by apply lookup_replicate_lt in Hx.
Qed.

(** ** InterleavedFFT: pulses *)

(** X19: at most one core is started per cycle.  With a hop size other
    than 0, after any clock edge of the scheduler at most one entry of
    [dma_starts] is high, whatever the registers held before.  The sizes
    are those for which the [int] expressions of [control_logic] do not
    overflow: [dma_starts] has [NUM_CORES = c] entries,
    [c * |h| + 4 <= INT_MAX], and the counter register is an [int] below
    [INT_MAX]. *)
Theorem stagger_one_pulse_per_edge (c h : Z) (rst start : bool)
    (s : InterleavedFFT.state) (i i' : nat) :
  Z.of_nat (length (InterleavedFFT.dma_starts s)) = c ->
  h <> 0 -> c * Z.abs h + 4 <= INT_MAX ->
  - INT_MAX - 1 <= InterleavedFFT.stagger_counter s < INT_MAX ->
  let s' := InterleavedFFT.control_logic c h rst start s in
  InterleavedFFT.dma_starts s' !! i = Some true ->
  InterleavedFFT.dma_starts s' !! i' = Some true ->
  i = i'.
Proof.
  intros _ Hh _ _ s'. unfold s', InterleavedFFT.control_logic.
  destruct rst; simpl.
  { intros Hi. by apply lookup_replicate_lt in Hi. }
  destruct (InterleavedFFT.is_active_at start s); simpl.
  - intros Hi Hi'.
    pose proof (lookup_lt_Some _ _ _ Hi) as Hlt.
    pose proof (lookup_lt_Some _ _ _ Hi') as Hlt'.
    rewrite pulse_starts_length in Hlt, Hlt'.
    rewrite pulse_starts_lookup in Hi, Hi' by done.
    injection Hi as Hi. injection Hi' as Hi'.
    apply Z.eqb_eq in Hi, Hi'. nia.
  - intros Hi. by apply lookup_replicate_lt in Hi.
Qed.

(** Two cores, hop 1, on the edge that starts core 1. *)
Lemma stagger_one_pulse_per_edge_witness :
  InterleavedFFT.dma_starts
    (InterleavedFFT.control_logic 2 1 false false
       (InterleavedFFT.State true 1 [true; false])) !! 1%nat = Some true /\
  1%nat = 1%nat.
Proof.
  split; [reflexivity|].
  apply (stagger_one_pulse_per_edge 2 1 false false
           (InterleavedFFT.State true 1 [true; false]) 1%nat 1%nat);
    [reflexivity|lia|unfold INT_MAX; simpl; lia|unfold INT_MAX; simpl; lia
    |reflexivity|reflexivity].
Defined.

(** ** InterleavedFFT: the cores' DMAs *)

Section cores.
Variables (c h AW : Z) (bases nums : list Z).

Lemma cores_run_snoc (starts : list bool) (v : bool)
    (st : InterleavedFFT.state * list DMA.state) :
  cores_run c h AW bases nums (starts ++ [v]) st
  = cores_edge c h AW false v bases nums
      (cores_run c h AW bases nums starts st).
Proof.
  revert st. induction starts as [|w starts IH]; intros st; [done|].
  cbn [app cores_run]. apply IH.
Qed.

Lemma cores_run_fst (starts : list bool)
    (st : InterleavedFFT.state * list DMA.state) :
  (cores_run c h AW bases nums starts st).1
  = InterleavedFFT.run c h starts st.1.
Proof.
  revert st. induction starts as [|w starts IH]; intros st; [done|].
  cbn [cores_run InterleavedFFT.run]. by rewrite IH.
Qed.

(** The [start] input core [i] samples at edge [m] of a stagger sequence
    (edge 0 accepts the global start): high at edge [i*h + 1] only. *)
Lemma core_start_input (s0 : InterleavedFFT.state) (rest : list bool)
    (i m : nat) :
  0 <= c -> 0 <= h ->
  InterleavedFFT.active_stagger s0 = false ->
  InterleavedFFT.dma_starts s0 = replicate (Z.to_nat c) false ->
  Z.of_nat i < c -> Z.of_nat m <= c * h + 4 -> (m <= S (length rest))%nat ->
  InterleavedFFT.dma_starts
    (InterleavedFFT.run c h (take m (true :: rest)) s0) !! i
  = Some (bool_decide (Z.of_nat m = Z.of_nat i * h + 1)).
Proof.
  intros Hc Hh Hidle Hstarts Hi Hm Hlen. destruct m as [|m].
  - rewrite take_0. cbn [InterleavedFFT.run]. rewrite Hstarts.
    rewrite lookup_replicate_2 by lia.
    by rewrite bool_decide_eq_false_2 by lia.
  - destruct (stagger_phase_run c h s0 rest m) as [_ (_ & _ & _ & Hst)];
      try done; try lia.
    { rewrite Hstarts, length_replicate. lia. }
    rewrite (Hst i Hi). f_equal.
    destruct (Z.eqb_spec (Z.of_nat m) (Z.of_nat i * h)).
    + by rewrite bool_decide_eq_true_2 by lia.
    + by rewrite bool_decide_eq_false_2 by lia.
Qed.

(** X20: the scheduler starts the DMA of core [i] on edge [i*h + 1].
    Let an idle scheduler with idle DMA cores accept a global start on
    edge 0.  The DMA of core [i] is untouched by the edges up to
    [i*h]; edge [i*h + 1] is the one on which it accepts its start: after
    it the DMA is busy with [base_addrs[i]] on its address bus and its
    first read in flight.  So the cores' transfers begin [h] cycles
    apart, in core order. *)
Theorem cores_start_in_turn (s0 : InterleavedFFT.state)
    (dmas : list DMA.state) (rest : list bool) (i : nat) (d : DMA.state) :
  0 <= c -> 0 <= h -> c * h + 4 <= INT_MAX ->
  InterleavedFFT.active_stagger s0 = false ->
  InterleavedFFT.dma_starts s0 = replicate (Z.to_nat c) false ->
  Z.of_nat i < c -> dmas !! i = Some d ->
  dma_inv d -> DMA.active d = false ->
  let after m := cores_run c h AW bases nums (take m (true :: rest)) (s0, dmas) in
  let first := Z.to_nat (Z.of_nat i * h + 1) in
  (first <= length rest)%nat ->
  (forall m, (m <= first)%nat -> (after m).2 !! i = Some d) /\
  exists d',
    (after (S first)).2 !! i = Some d' /\
    DMA.active d' = true /\ DMA.busy d' = true /\
    DMA.read_wait d' = true /\ DMA.sample_counter d' = 1 /\
    DMA.mem_addr d' = default 0 (bases !! i).
Proof.
  intros Hc Hh _ Hidle Hstarts Hi Hd Hinv Hact after first Hlen.
  assert (Hunchanged : forall m, (m <= first)%nat -> (after m).2 !! i = Some d).
  { induction m as [|m IH]; intros Hm.
    - unfold after. by rewrite take_0.
    - destruct (lookup_lt_is_Some_2 (true :: rest) m) as [v Hv];
        [simpl; lia|].
      unfold after. rewrite (take_S_r _ _ _ Hv), cores_run_snoc.
      unfold cores_edge. cbn [snd]. rewrite list_lookup_imap.
      fold (after m). rewrite (IH ltac:(lia)). cbn [fmap option_fmap option_map].
      unfold after at 1. rewrite cores_run_fst. cbn [fst].
      rewrite core_start_input by (try done; unfold first in *; nia).
      rewrite bool_decide_eq_false_2 by (unfold first in *; lia).
      f_equal. by apply dma_idle_step. }
  split; [done|].
  destruct (lookup_lt_is_Some_2 (true :: rest) first) as [v Hv];
    [simpl; lia|].
  unfold after. rewrite (take_S_r _ _ _ Hv), cores_run_snoc.
  unfold cores_edge. cbn [snd]. rewrite list_lookup_imap.
  fold (after first). rewrite (Hunchanged first ltac:(lia)).
  cbn [fmap option_fmap option_map].
  unfold after. rewrite cores_run_fst. cbn [fst].
  rewrite core_start_input by (try done; unfold first in *; nia).
  rewrite bool_decide_eq_true_2 by (unfold first; nia).
  eexists. split; [reflexivity|].
  unfold DMA.seq_logic. cbn [DMA.rst DMA.start default]. rewrite Hact.
  simpl. done.
Qed.

End cores.

(** Main's configuration: two cores, hop 1; core 1 reads from address 4
    and accepts on edge 2. *)
Lemma cores_start_in_turn_witness :
  exists d',
    (cores_run 2 1 12 [0; 4] [4; 4] [true; false; false]
       (InterleavedFFT.initial 2, [DMA.initial; DMA.initial])).2 !! 1%nat
    = Some d' /\
    DMA.mem_addr d' = 4.
Proof.
  destruct (cores_start_in_turn 2 1 12 [0; 4] [4; 4]
              (InterleavedFFT.initial 2) [DMA.initial; DMA.initial]
              [false; false] 1 DMA.initial)
    as (_ & d' & Hd' & _ & _ & _ & _ & Haddr);
    [lia|lia|done|reflexivity|reflexivity|lia|reflexivity
    |apply dma_inv_initial|reflexivity|simpl; lia|].
  exists d'. split; [exact Hd'|exact Haddr].
Defined.

(** ** Packing and unpacking *)

Lemma uint_of_double_range (f : float) (a : Z) :
  uint_of_double f = Some a -> 0 <= a < 2 ^ 32.
Proof.
  unfold uint_of_double.
  destruct (FloatOps.Prim2SF f) as [s| | |s m e]; try done.
  - intros [= <-]. lia.
  - set (t := if 0 <=? e then _ else _).
    assert (0 <= t).
    { unfold t. destruct (Z.leb_spec 0 e).
      - apply Z.mul_nonneg_nonneg; [lia|]. apply Z.pow_nonneg. lia.
      - apply Z.div_pos; [lia|]. apply Z.pow_pos_nonneg; lia. }
    destruct s.
    + destruct (t =? 0); [|done]. intros [= <-]. lia.
    + destruct (Z.ltb_spec t (2 ^ 32)); [|done]. intros [= <-]. lia.
Qed.

Lemma pack_halves (a b : Z) :
  0 <= a < 2 ^ 32 -> 0 <= b < 2 ^ 32 ->
  let w := Z.lor (Z.shiftl a 32) b in
  0 <= w < 2 ^ 64 /\ w / 2 ^ 32 = a /\ w mod 2 ^ 32 = b.
Proof.
  intros Ha Hb w.
  assert (Hhi : w / 2 ^ 32 = a).
  { unfold w. rewrite <- Z.shiftr_div_pow2, Z.shiftr_lor by lia.
    rewrite Z.shiftr_shiftl_l, Z.sub_diag, Z.shiftl_0_r by lia.
    rewrite (Z.shiftr_div_pow2 b), Z.div_small by lia.
    apply Z.lor_0_r. }
  assert (Hlo : w mod 2 ^ 32 = b).
  { unfold w. rewrite <- Z.land_ones, Z.land_lor_distr_l by lia.
    rewrite !Z.land_ones, Z.shiftl_mul_pow2, Z.mod_mul by lia.
    rewrite Z.lor_0_l. by apply Z.mod_small. }
  split; [|done].
  pose proof (Z.div_mod w (2 ^ 32) ltac:(lia)) as Hdm.
  rewrite Hhi, Hlo in Hdm.
  change (2 ^ 64) with (2 ^ 32 * 2 ^ 32). nia.
Qed.

(** X21: what the testbench packs, the DMA unpacks.  When
    [pack_complex(r, i)] is defined, the word fits 64 bits and the DMA
    turns it into the sample whose parts are [r] and [i] truncated to
    unsigned 32-bit integers. *)
Theorem pack_then_unpack (r i : float) (w : Z) (s : DMA.state) :
  pack_complex r i = Some w -> DMA.read_req s = true ->
  exists a b,
    uint_of_double r = Some a /\ uint_of_double i = Some b /\
    0 <= w < 2 ^ 64 /\
    DMA.comb_logic 64 s w
    = DMA.Outputs true (Complex (double_of_uint a) (double_of_uint b)).
Proof.
  unfold pack_complex. intros Hpack Hrq.
  destruct (uint_of_double r) as [a|] eqn:Ha; [|done].
  destruct (uint_of_double i) as [b|] eqn:Hb; [|done].
  injection Hpack as <-. exists a, b.
  apply uint_of_double_range in Ha, Hb.
  destruct (pack_halves a b Ha Hb) as (Hw & Hhi & Hlo).
  split; [done|]. split; [done|]. split; [done|].
  unfold DMA.comb_logic. rewrite Hrq. simpl.
  destruct (upper_half _ Hw) as [-> _].
  destruct (lower_half (Z.lor (Z.shiftl a 32) b)) as [-> _].
  by rewrite Hhi, Hlo.
Qed.

(** The word the testbench writes for sample 9: [pack_complex(9.0, 0.0)]. *)
Lemma pack_then_unpack_witness :
  pack_complex 9 0 = Some (9 * 2 ^ 32) /\
  DMA.comb_logic 64 (DMA.State true 0 true 1 true false 1) (9 * 2 ^ 32)
  = DMA.Outputs true (Complex 9 0).
Proof.
  split; [reflexivity|].
  destruct (pack_then_unpack 9 0 (9 * 2 ^ 32)
              (DMA.State true 0 true 1 true false 1) eq_refl eq_refl)
    as (a & b & Ha & Hb & _ & Hout).
  vm_compute in Ha, Hb. injection Ha as <-. injection Hb as <-.
  exact Hout.
Defined.

(** ** FFT: reset *)

Section fft_reset_properties.
Context `{Libm}.

Lemma seq_logic_same (cfg : FFT.config) (r v : bool) (a b : FFT.state) :
  same_but_flushing a b ->
  same_but_flushing (FFT.seq_logic cfg r v a) (FFT.seq_logic cfg r v b).
Proof.
  destruct a as [ic si oc fl vp], b as [ic' si' oc' fl' vp'].
  unfold same_but_flushing. simpl. intros (-> & -> & -> & ->).
  unfold FFT.seq_logic, FFT.internal_enable, FFT.stage_sync. simpl.
  destruct r; [done|].
  destruct (v || FFT.any_valid_in_pipe vp'); done.
Qed.

Lemma stages_edge_reset (cfgs : list Stage.config) (enable sync : bool)
    (x : complex_t) (sts : list Stage.state) :
  Forall2 Stage.wf cfgs sts ->
  exists sts', stages_edge cfgs true enable sync x sts = Some sts' /\
               Forall2 stage_is_reset cfgs sts'.
Proof.
  intros Hall. revert x.
  induction Hall as [|cfg s cfgs sts Hwf Hall IH]; intros x.
  - exists []. by split; [|constructor].
  - destruct (IH (Stage.out_data s)) as (rest & Hrest & Hreset).
    cbn [stages_edge]. rewrite Hrest.
    unfold Stage.process. cbn [mbind option_bind].
    eexists. split; [reflexivity|]. constructor; [|done].
    unfold stage_is_reset, settle, vec_fill.
    cbn [Stage.cnt Stage.out_data Stage.buf_in Stage.buf_out].
    destruct Hwf.
    split; [done|split; [apply signal_write_same, csame_refl|]].
    split; f_equal; lia.
Qed.

Lemma stage_is_reset_same (cfg : Stage.config) (s t : Stage.state) :
  stage_is_reset cfg s -> stage_is_reset cfg t -> stage_same s t.
Proof.
  intros (Hc & Ho & Hbi & Hbo) (Hc' & Ho' & Hbi' & Hbo').
  split; [congruence|]. split.
  - eapply csame_trans; [exact Ho|by apply csame_sym].
  - rewrite Hbi, Hbi', Hbo, Hbo'. split; apply Forall2_csame_refl.
Qed.

Lemma stages_reset_same (cfgs : list Stage.config)
    (sts tts : list Stage.state) :
  Forall2 stage_is_reset cfgs sts -> Forall2 stage_is_reset cfgs tts ->
  Forall2 stage_same sts tts.
Proof.
  intros Hs. revert tts.
  induction Hs as [|c s cs ss Hs Hall IH]; intros tts Ht;
    inversion Ht as [|c' t cs' ts Ht1 Hall']; subst; constructor.
  - by eapply stage_is_reset_same.
  - by apply IH.
Qed.

Lemma fft_edge_same (cfg : FFT.config) (i : fft_edge_in)
    (a b : FFT.state * list Stage.state) :
  same_but_flushing a.1 b.1 -> Forall2 stage_same a.2 b.2 ->
  option_Forall2
    (fun a' b' => same_but_flushing a'.1 b'.1 /\ Forall2 stage_same a'.2 b'.2)
    (fft_edge cfg i a) (fft_edge cfg i b).
Proof.
  intros Hsame Hst. unfold fft_edge.
  pose proof Hsame as (_ & Hsi & _ & Hvp).
  unfold FFT.internal_enable, FFT.stage_sync. rewrite Hsi, Hvp.
  destruct (stages_edge_same (FFT.stages cfg) (fe_rst i)
              (fe_in_valid i || FFT.any_valid_in_pipe (FFT.valid_pipe b.1))
              ((FFT.samples_in_cnt b.1 =? 0) && fe_in_valid i
               && negb (FFT.any_valid_in_pipe (FFT.valid_pipe b.1)))
              (fe_in_data i) (fe_in_data i) a.2 b.2 Hst (csame_refl _))
    as [sa sb Hs|]; constructor.
  split; [|done]. by apply seq_logic_same.
Qed.

Lemma final_stage_out_same (sts tts : list Stage.state) :
  Forall2 stage_same sts tts ->
  csame (final_stage_out sts) (final_stage_out tts).
Proof.
  intros Hall. unfold final_stage_out.
  induction Hall as [|s t sts tts Hst Hall IH]; [apply csame_refl|].
  destruct Hall as [|s2 t2 sts tts Hst2 Hall].
  - by destruct Hst as (_ & Ho & _).
  - exact IH.
Qed.

Lemma fft_observe_same (cfg : FFT.config) (ins : list fft_edge_in)
    (a b : FFT.state * list Stage.state) :
  same_but_flushing a.1 b.1 -> Forall2 stage_same a.2 b.2 ->
  obs_same (fft_observe cfg ins a) (fft_observe cfg ins b).
Proof.
  revert a b. induction ins as [|i ins IH]; intros a b Hsame Hst.
  - unfold fft_observe, fft_outputs, FFT.comb_logic. simpl.
    destruct Hsame as (_ & _ & Hoc & Hvp). rewrite Hvp.
    destruct (default false (last (FFT.valid_pipe b.1))); simpl.
    + split; [done|split; [done|by apply final_stage_out_same]].
    + split; [done|split; [done|apply csame_refl]].
  - pose proof (fft_edge_same cfg i a b Hsame Hst) as Hedge.
    unfold fft_observe in *. cbn [fft_run].
    destruct Hedge as [a' b' [Hsame' Hst']|]; [|done].
    cbn [mbind option_bind]. by apply IH.
Qed.

(** X22: a reset forgets the past.  Take two FFTs of the same
    configuration in any two states (well-formed stages, shift registers
    of the same length), for instance one idle and one in mid-block.
    After one edge with [rst] high, the same inputs give the same
    [out_valid] and [out_index] on every later cycle, and the same
    [out_data] up to the sign of a zero: nothing of the counters, the
    shift register or the stage buffers survives.  What may differ is
    [flushing], which [seq_logic] does not reset, and the sign of a zero
    on a signal between the stages: the reset writes [(0,0)], which a
    signal holding a negative zero does not take. *)
Theorem fft_reset_forgets (cfg : FFT.config) (i i' : fft_edge_in)
    (ins : list fft_edge_in) (st st' : FFT.state * list Stage.state) :
  Forall2 Stage.wf (FFT.stages cfg) st.2 ->
  Forall2 Stage.wf (FFT.stages cfg) st'.2 ->
  length (FFT.valid_pipe st.1) = length (FFT.valid_pipe st'.1) ->
  fe_rst i = true -> fe_rst i' = true ->
  (exists o o',
     fft_observe cfg (i :: ins) st = Some o /\
     fft_observe cfg (i' :: ins) st' = Some o' /\
     o.1 = o'.1 /\ csame o.2 o'.2) /\
  exists r r' sts sts',
    fft_edge cfg i st = Some (r, sts) /\
    fft_edge cfg i' st' = Some (r', sts') /\
    same_but_flushing r r' /\
    FFT.flushing r = FFT.flushing st.1 /\
    FFT.flushing r' = FFT.flushing st'.1 /\
    Forall2 stage_is_reset (FFT.stages cfg) sts /\
    Forall2 stage_is_reset (FFT.stages cfg) sts'.
Proof.
  intros Hwf Hwf' Hlen Hr Hr'.
  destruct (stages_edge_reset (FFT.stages cfg)
              (FFT.internal_enable st.1 (fe_in_valid i))
              (FFT.stage_sync st.1 (fe_in_valid i)) (fe_in_data i) st.2 Hwf)
    as (sts & Hsts & Hreset).
  destruct (stages_edge_reset (FFT.stages cfg)
              (FFT.internal_enable st'.1 (fe_in_valid i'))
              (FFT.stage_sync st'.1 (fe_in_valid i')) (fe_in_data i') st'.2 Hwf')
    as (sts' & Hsts' & Hreset').
  assert (He : fft_edge cfg i st
               = Some (FFT.seq_logic cfg true (fe_in_valid i) st.1, sts)).
  { unfold fft_edge. by rewrite Hr, Hsts. }
  assert (He' : fft_edge cfg i' st'
                = Some (FFT.seq_logic cfg true (fe_in_valid i') st'.1, sts')).
  { unfold fft_edge. by rewrite Hr', Hsts'. }
  assert (Hsame : same_but_flushing
                    (FFT.seq_logic cfg true (fe_in_valid i) st.1)
                    (FFT.seq_logic cfg true (fe_in_valid i') st'.1)).
  { unfold same_but_flushing, FFT.seq_logic, vec_fill. simpl.
    by rewrite Hlen. }
  pose proof (stages_reset_same _ _ _ Hreset Hreset') as Hstages.
  split.
  - pose proof (fft_observe_same cfg ins (_, sts) (_, sts') Hsame Hstages)
      as Hobs.
    destruct (stages_edge_wf (FFT.stages cfg) true
                (FFT.internal_enable st.1 (fe_in_valid i))
                (FFT.stage_sync st.1 (fe_in_valid i)) (fe_in_data i) st.2 Hwf)
      as (sts2 & Hsts2 & Hwfs).
    rewrite Hsts in Hsts2. injection Hsts2 as <-.
    destruct (stages_edge_wf (FFT.stages cfg) true
                (FFT.internal_enable st'.1 (fe_in_valid i'))
                (FFT.stage_sync st'.1 (fe_in_valid i')) (fe_in_data i') st'.2
                Hwf')
      as (sts2 & Hsts2 & Hwfs').
    rewrite Hsts' in Hsts2. injection Hsts2 as <-.
    destruct (fft_run_wf cfg ins
                (FFT.seq_logic cfg true (fe_in_valid i) st.1, sts) Hwfs)
      as (a & Ha & _).
    destruct (fft_run_wf cfg ins
                (FFT.seq_logic cfg true (fe_in_valid i') st'.1, sts') Hwfs')
      as (b & Hb & _).
    unfold fft_observe in *. cbn [fft_run]. rewrite He, He'.
    cbn [mbind option_bind]. rewrite Ha, Hb in *.
    cbn [mbind option_bind] in *. do 2 eexists.
    split; [reflexivity|]. split; [reflexivity|].
    cbn [obs_same] in Hobs. cbn [fst snd].
    destruct Hobs as (-> & -> & Hd). done.
  - exists (FFT.seq_logic cfg true (fe_in_valid i) st.1),
           (FFT.seq_logic cfg true (fe_in_valid i') st'.1), sts, sts'.
    done.
Qed.

End fft_reset_properties.

(** A 2-point FFT reset while idle and while in mid-block. *)
Lemma fft_reset_forgets_witness :
  let cfg := FFT.Config 2 1 2 [Stage.Config 2 1 0] in
  let ins := [FftEdgeIn false true (Complex 1 0);
              FftEdgeIn false true (Complex 2 0)] in
  exists o o',
    fft_observe (H := poly_libm) cfg (FftEdgeIn true false czero :: ins)
      (FFT.initial cfg, [Stage.State 0 czero [czero] [czero]]) = Some o /\
    fft_observe (H := poly_libm) cfg (FftEdgeIn true true czero :: ins)
      (FFT.State 7 1 0 true [true; false],
       [Stage.State 1 (Complex 5 5) [Complex 6 6] [Complex 7 7]]) = Some o' /\
    o.1 = o'.1 /\ csame o.2 o'.2.
Proof.
  intros cfg ins.
  refine (proj1 (fft_reset_forgets (H := poly_libm) cfg
                   (FftEdgeIn true false czero) (FftEdgeIn true true czero)
                   ins
                   (FFT.initial cfg, [Stage.State 0 czero [czero] [czero]])
                   (FFT.State 7 1 0 true [true; false],
                    [Stage.State 1 (Complex 5 5) [Complex 6 6] [Complex 7 7]])
                   _ _ eq_refl eq_refl eq_refl)).
  - repeat constructor; simpl; lia.
  - repeat constructor; simpl; lia.
Defined.

(** A reset does not clear a negative zero held by [final_stage_out]: a
    2-point FFT that has just emitted [-0] shows [-0] for the sum of two
    zero samples after the reset, where a fresh one shows [+0]. *)
Example reset_keeps_negative_zero :
  let cfg := FFT.Config 2 1 2 [Stage.Config 2 1 0] in
  let nz := Complex (-0)%float (-0)%float in
  let fresh := (FFT.initial cfg, [Stage.State 0 czero [czero] [czero]]) in
  let before :=
    [FftEdgeIn false true (Complex 5 5); FftEdgeIn false true (Complex 3 3);
     FftEdgeIn false true nz; FftEdgeIn false true nz] in
  let after :=
    [FftEdgeIn true false czero; FftEdgeIn false true czero;
     FftEdgeIn false true czero] in
  fft_observe (H := poly_libm) cfg (before ++ after) fresh
  = Some (true, 0, nz) /\
  fft_observe (H := poly_libm) cfg after fresh = Some (true, 0, czero).
Proof. split; reflexivity. Qed.
